(** * ImageDisplay: a terminal image renderer (src/imagedisplay.py)

    A shallow embedding of the palette table, the renderer
    [image_to_str], the frame sequencer [TerminalImage.__init__], the
    player [TerminalImage.show] and the loader [TerminalImage.from_path],
    followed by the properties established about them.

    Conventions.
    - A Python [str] is a [string] holding its UTF-8 bytes; textual
      identity of two Python strings is equality of those bytes.
    - A Python [int] is a [Z], and a [nat] where it is a size or comes
      from [range] or [enumerate]; a duration in seconds is the exact
      rational [Q] that the Python float approximates.
    - A raised exception is a value of [exn]; a call that may raise
      returns a [result]. *)

From Stdlib Require Import ZArith QArith Lia Ascii String.
From stdpp Require Import base option list strings gmap pretty.

Open Scope Z_scope.

(** ** Exceptions *)

(** The exception classes that occur in the program. [KeyboardInterrupt]
    and [SystemExit] derive from [BaseException] only; the others derive
    from [Exception]; [FileNotFoundError], [IsADirectoryError] and
    [PermissionError] derive from [OSError]. *)
Inductive exn : Type :=
| IndexError
| ValueError
| UnboundLocalError
| OSError (msg : string)
| FileNotFoundError
| IsADirectoryError
| PermissionError
| KeyboardInterrupt
| SystemExit.

(** [isinstance(e, Exception)] *)
Definition is_Exception (e : exn) : bool :=
  match e with
  | KeyboardInterrupt | SystemExit => false
  | _ => true
  end.

(** [isinstance(e, OSError)] *)
Definition is_OSError (e : exn) : bool :=
  match e with
  | OSError _ | FileNotFoundError | IsADirectoryError | PermissionError =>
      true
  | _ => false
  end.

Inductive result (A : Type) : Type :=
| Ok (a : A)
| Raise (e : exn).
Arguments Ok {A} a.
Arguments Raise {A} e.

#[global] Instance exn_eq_dec : EqDecision exn.
Proof. solve_decision. Defined.

#[global] Instance result_eq_dec {A : Type} `{EqDecision A} :
  EqDecision (result A).
Proof. solve_decision. Defined.

#[global] Instance result_ret : MRet result := fun _ a => Ok a.
#[global] Instance result_bind : MBind result := fun _ _ k r =>
  match r with
  | Ok a => k a
  | Raise e => Raise e
  end.

(** A [for x in xs: s = body(s, x)] loop whose body may raise. *)
Fixpoint for_each {A S : Type} (xs : list A) (body : S -> A -> result S)
    (s : S) : result S :=
  match xs with
  | [] => Ok s
  | x :: xs' =>
      match body s x with
      | Ok s' => for_each xs' body s'
      | Raise e => Raise e
      end
  end.

(** [range(n)] *)
Definition range (n : nat) : list nat := seq 0 n.

(** [l[i]] for a Python sequence and a Python int: a negative index counts
    from the end, anything out of range raises [IndexError]. *)
Definition py_index {A : Type} (l : list A) (i : Z) : result A :=
  let j := if i <? 0 then i + Z.of_nat (length l) else i in
  if j <? 0 then Raise IndexError
  else match l !! Z.to_nat j with
       | Some a => Ok a
       | None => Raise IndexError
       end.

(** ** colorama's escape sequences *)

Definition ESC : string := String "027"%char EmptyString.
Definition CSI : string := ESC +:+ "[".

(** [colorama.ansi.code_to_chars] *)
Definition code_to_chars (code : string) : string := CSI +:+ code +:+ "m".

Module Fore.
Definition BLACK : string := code_to_chars "30".
Definition RED : string := code_to_chars "31".
Definition GREEN : string := code_to_chars "32".
Definition YELLOW : string := code_to_chars "33".
Definition BLUE : string := code_to_chars "34".
Definition MAGENTA : string := code_to_chars "35".
Definition CYAN : string := code_to_chars "36".
Definition WHITE : string := code_to_chars "37".
End Fore.

Module Style.
Definition BRIGHT : string := code_to_chars "1".
Definition DIM : string := code_to_chars "2".
Definition NORMAL : string := code_to_chars "22".
Definition RESET_ALL : string := code_to_chars "0".
End Style.

(** ** Palette table *)

(** The full block U+2588, as its three UTF-8 bytes. *)
Definition PIXEL : string :=
  String "226"%char (String "150"%char (String "136"%char EmptyString)).

Definition rgb : Type := (Z * Z * Z)%type.

Definition COLORS : list (rgb * string) :=
  [ ((30, 34, 36), Fore.BLACK +:+ Style.DIM);
    ((10, 39, 53), Fore.BLACK +:+ Style.NORMAL);
    ((85, 87, 87), Fore.BLACK +:+ Style.BRIGHT);
    ((160, 160, 160), Fore.WHITE +:+ Style.DIM);
    ((220, 220, 220), Fore.WHITE +:+ Style.NORMAL);
    ((255, 255, 255), Fore.WHITE +:+ Style.BRIGHT);
    ((88, 0, 0), Fore.RED +:+ Style.DIM);
    ((204, 0, 0), Fore.RED +:+ Style.NORMAL);
    ((239, 41, 41), Fore.RED +:+ Style.BRIGHT);
    ((52, 103, 4), Fore.GREEN +:+ Style.DIM);
    ((78, 154, 6), Fore.GREEN +:+ Style.NORMAL);
    ((138, 226, 52), Fore.GREEN +:+ Style.BRIGHT);
    ((131, 107, 0), Fore.YELLOW +:+ Style.DIM);
    ((169, 160, 0), Fore.YELLOW +:+ Style.NORMAL);
    ((252, 233, 79), Fore.YELLOW +:+ Style.BRIGHT);
    ((34, 67, 109), Fore.BLUE +:+ Style.DIM);
    ((52, 101, 164), Fore.BLUE +:+ Style.NORMAL);
    ((173, 127, 168), Fore.BLUE +:+ Style.BRIGHT);
    ((90, 60, 90), Fore.MAGENTA +:+ Style.DIM);
    ((125, 80, 125), Fore.MAGENTA +:+ Style.NORMAL);
    ((190, 130, 190), Fore.MAGENTA +:+ Style.BRIGHT);
    ((4, 101, 103), Fore.CYAN +:+ Style.DIM);
    ((6, 152, 154), Fore.CYAN +:+ Style.NORMAL);
    ((52, 226, 226), Fore.CYAN +:+ Style.BRIGHT) ].

(** [[*t]] for an RGB tuple [t]. *)
Definition rgb_list (c : rgb) : list Z :=
  let '(r, g, b) := c in [r; g; b].

(** [PALETTE_DATA = [c for rgb, _ in COLORS for c in rgb]], then
    [PALETTE_DATA += [*COLORS[0][0]] * (256 - len(COLORS))]. *)
Definition PALETTE_DATA : list Z :=
  flat_map (fun entry => rgb_list (fst entry)) COLORS
  ++ match COLORS with
     | [] => []
     | first :: _ =>
         concat (replicate (256 - length COLORS)%nat (rgb_list (fst first)))
     end.

(** The RGB triple that a palette installed by [putpalette] holds in slot
    [i]: the three consecutive values starting at position [3 * i]. *)
Definition palette_rgb (data : list Z) (i : nat) : option rgb :=
  match data !! (3 * i)%nat, data !! (3 * i + 1)%nat,
        data !! (3 * i + 2)%nat with
  | Some r, Some g, Some b => Some (r, g, b)
  | _, _, _ => None
  end.

(** [color(pixel)]: [COLORS[pixel][1]]. *)
Definition color (pixel : Z) : result string :=
  entry ← py_index COLORS pixel;
  mret (snd entry).


(** ** Renderer *)

(** The part of a PIL image the program reads: its size and [getpixel]. *)
Record Image (P : Type) : Type := {
  width : nat;
  height : nat;
  getpixel : nat -> nat -> P
}.
Arguments width {P} _.
Arguments height {P} _.
Arguments getpixel {P} _ _ _.

Inductive Resample : Type := NEAREST | BILINEAR.

Definition NL : string := String "010"%char EmptyString.

(** [l[i]] for an index produced by [range] or [enumerate]. *)
Definition list_get {A : Type} (l : list A) (i : nat) : result A :=
  match l !! i with
  | Some a => Ok a
  | None => Raise IndexError
  end.

(** The state of the two loops of [image_to_str]: [last] and
    [image_content]. *)
Definition render_state : Type := (option string * list (list string))%type.

(** Body of [for x in range(resized_image.width)]. *)
Definition emit (img : Image Z) (y : nat) (st : render_state) (x : nat)
    : result render_state :=
  let '(last, image_content) := st in
  c ← color (getpixel img x y);
  let color_pxl := c +:+ PIXEL in
  line ← list_get image_content y;
  mret (Some color_pxl,
        <[y := line ++ [if decide (Some color_pxl = last)
                        then PIXEL else color_pxl]]> image_content).

(** Body of [for y in range(resized_image.height)]. *)
Definition render_row (img : Image Z) (st : render_state) (y : nat)
    : result render_state :=
  let '(last, image_content) := st in
  for_each (range (width img)) (emit img y) (last, image_content ++ [[]]).

(** Both loops, started with [last = None] and no rows. *)
Definition image_content_of (img : Image Z) : result (list (list string)) :=
  st ← for_each (range (height img)) (render_row img) (None, []);
  mret (snd st).

(** ["\n".join("".join(line) for line in image_content) + Style.RESET_ALL] *)
Definition join_content (image_content : list (list string)) : string :=
  String.concat NL (map (String.concat "") image_content) +:+ Style.RESET_ALL.

(** Lines 88 to 97 of [image_to_str]: the resized image to its string. *)
Definition render_image (img : Image Z) : result string :=
  image_content ← image_content_of img;
  mret (join_content image_content).

(** The two attributes of a [TerminalImage]. *)
Record TerminalImage : Type := {
  frames : list string;
  durations : list Q
}.

(** Why the operating system may refuse to remove an entry: it is a
    directory, or the caller may not remove it (a protected directory or
    file, a file still open on Windows). *)
Inductive refusal : Type :=
| is_a_directory
| permission_denied.

(** The [OSError] that [os.remove] raises for a refusal. *)
Definition refusal_error (r : refusal) : exn :=
  match r with
  | is_a_directory => IsADirectoryError
  | permission_denied => PermissionError
  end.

Section Pipeline.
(** A decoded frame, in whatever mode the codec produced. *)
Context {Picture : Type}.
(** [image.convert("RGB")] *)
Variable convert_RGB : Picture -> Image rgb.
(** [image.im.convert("P", 0, PALETTE.im)]: nearest palette entry,
    without dithering, against the palette given by its data. *)
Variable convert_P : Image rgb -> list Z -> Image Z.
(** [Image.resize(size, resample)] *)
Variable resize : Image Z -> Z * Z -> Resample -> result (Image Z).
(** [shutil.get_terminal_size()]: columns and lines, taken to stay the
    same while one image is constructed. *)
Variable terminal : Z * Z.

(** [compress(image)]. Its [try]/[except AttributeError] only picks the
    constructor that wraps the converted core image. *)
Definition compress (image : Picture) : Image Z :=
  let image := convert_RGB image in
  convert_P image PALETTE_DATA.

Definition get_terminal_size : Z * Z :=
  let '(width, height) := terminal in
  (width - 2, height - 2).

Definition image_to_str (image : Picture) : result string :=
  let '(width, height) := get_terminal_size in
  let compresed_image := compress image in
  resized_image ← resize compresed_image (width, height) BILINEAR;
  render_image resized_image.

(** [ImageSequence.Iterator(image)]: the frames in source order. Each
    frame is used up before the iterator moves on. *)
Variable ImageSequence_Iterator : Picture -> list Picture.
(** [frame.info], with the millisecond values it may hold. *)
Variable info : Picture -> gmap string Z.

(** [frame.info.get("duration", 200) / 1000] *)
Definition frame_duration (frame : Picture) : Q :=
  Qdiv (inject_Z (default 200 (info frame !! "duration"))) (inject_Z 1000).

(** Body of the loop of [TerminalImage.__init__]. The status line it
    prints (frame number, elapsed time, character count) is left out. *)
Definition init_step (self : TerminalImage) (frame : Picture)
    : result TerminalImage :=
  image_str ← image_to_str frame;
  let durations' := durations self ++ [frame_duration frame] in
  let frames' := frames self ++ [image_str] in
  mret {| frames := frames'; durations := durations' |}.

(** [TerminalImage(image)] *)
Definition TerminalImage_init (image : Picture) : result TerminalImage :=
  for_each (ImageSequence_Iterator image) init_step
    {| frames := []; durations := [] |}.

(** *** Loading from a path *)

(** The codec behind [Image.open], on the bytes of a file. *)
Variable decode : string -> result Picture.
(** [subprocess.Popen(argv)] followed by [process.wait()]: either the
    spawn raises, or the tool runs to completion, leaving an exit code
    and a file system. *)
Variable run_process :
  gmap string string -> list string -> result (Z * gmap string string).
(** Whether, and why, the operating system refuses to remove the entry at
    a path of a file system. *)
Variable refuses : gmap string string -> string -> option refusal.
Variable abspath : string -> string.
Variable PALETTE_PATH : string.

(** The file system: the content of every existing entry, by path. *)
Definition Image_open (fs : gmap string string) (path : string)
    : result Picture :=
  match fs !! path with
  | Some bytes => decode bytes
  | None => Raise FileNotFoundError
  end.

(** [os.remove(path)]: a refusal raises its error and removes nothing;
    otherwise the entry is removed, or found missing. *)
Definition os_remove (fs : gmap string string) (path : string)
    : result unit * gmap string string :=
  match refuses fs path with
  | Some r => (Raise (refusal_error r), fs)
  | None =>
      match fs !! path with
      | Some _ => (Ok tt, delete path fs)
      | None => (Raise FileNotFoundError, fs)
      end
  end.

(** [video_to_gif]. A non-zero exit code raises [OSError]. The [finally]
    block waits again for the finished process and sleeps half a second,
    which changes nothing here; but when the spawn itself raises,
    [process] is unbound in that block, whose [process.wait()] then raises
    in its turn. *)
Definition video_to_gif (fs : gmap string string)
    (in_path out_path : string) : result unit * gmap string string :=
  match run_process fs
          ["ffmpeg"; "-i"; in_path; "-i"; PALETTE_PATH; "-lavfi";
           "paletteuse"; "-y"; "-r"; "10"; "-hide_banner"; out_path] with
  | Ok (code, fs') =>
      if decide (code ≠ 0)
      then (Raise (OSError ("ffmpeg error: exit with " +:+ pretty code)),
            fs')
      else (Ok tt, fs')
  | Raise _ => (Raise UnboundLocalError, fs)
  end.

(** The first [try] of [from_path]. *)
Definition open_directly (fs : gmap string string) (path : string)
    : result TerminalImage :=
  image ← Image_open fs path;
  TerminalImage_init image.

(** The second [try] of [from_path], before its [finally]. *)
Definition open_transcoded (fs : gmap string string)
    (in_path out_path : string)
    : result TerminalImage * gmap string string :=
  match video_to_gif fs in_path out_path with
  | (Ok _, fs') =>
      (image ← Image_open fs' out_path; TerminalImage_init image, fs')
  | (Raise e, fs') => (Raise e, fs')
  end.

(** [TerminalImage.from_path(path)]. The progress message printed before
    the transcoding is left out. *)
Definition from_path (fs : gmap string string) (path : string)
    : result TerminalImage * gmap string string :=
  match open_directly fs path with
  | Ok self => (Ok self, fs)
  | Raise e =>
      if is_OSError e then
        let in_path := abspath path in
        let out_path := in_path +:+ ".temp.gif" in
        let '(r, fs') := open_transcoded fs in_path out_path in
        match os_remove fs' out_path with
        | (Ok _, fs'') => (r, fs'')
        | (Raise FileNotFoundError, fs'') => (r, fs'')
        | (Raise e', fs'') => (Raise e', fs'')
        end
      else (Raise e, fs)
  end.
End Pipeline.

(** *** The renderer without the run-length optimization

    The spec compares [image_to_str] with a rendering that always emits
    the fully-styled glyph. These definitions follow the spec's words:
    they are [emit] and its callers with the comparison against [last]
    removed. *)
Definition emit_unoptimized (img : Image Z) (y : nat) (st : render_state)
    (x : nat) : result render_state :=
  let '(last, image_content) := st in
  c ← color (getpixel img x y);
  let color_pxl := c +:+ PIXEL in
  line ← list_get image_content y;
  mret (Some color_pxl, <[y := line ++ [color_pxl]]> image_content).

Definition render_row_unoptimized (img : Image Z) (st : render_state)
    (y : nat) : result render_state :=
  let '(last, image_content) := st in
  for_each (range (width img)) (emit_unoptimized img y)
    (last, image_content ++ [[]]).

Definition render_image_unoptimized (img : Image Z) : result string :=
  st ← for_each (range (height img)) (render_row_unoptimized img) (None, []);
  mret (join_content (snd st)).

(** Stripping the styling codes: every escape sequence, from its ESC byte
    to its final [m], is dropped; all other bytes are kept. *)
Fixpoint strip_from (in_escape : bool) (s : string) : string :=
  match s with
  | EmptyString => EmptyString
  | String c s' =>
      if in_escape then
        if Ascii.eqb c "m" then strip_from false s' else strip_from true s'
      else if Ascii.eqb c "027" then strip_from true s'
      else String c (strip_from false s')
  end.

Definition strip_styling (s : string) : string := strip_from false s.

(** ** Player *)

(** What the player does to the outside: it sleeps and it prints. *)
Inductive event : Type :=
| Sleep (seconds : Q)
| Print (text : string).

(** The outside world of [show]: what each coming call of [sleep] or
    [print] will do ([Some e]: raise [e]; [None], or nothing scheduled:
    succeed), and the calls that succeeded so far. *)
Record world : Type := {
  schedule : list (option exn);
  trace : list event
}.

(** A computation returns, raises, or is still running when its fuel is
    spent (only [while True] consumes fuel). *)
Inductive outcome (A : Type) : Type :=
| Done (a : A)
| Raised (e : exn)
| Running.
Arguments Done {A} a.
Arguments Raised {A} e.
Arguments Running {A}.

Definition io (A : Type) : Type := world -> outcome A * world.

#[global] Instance io_ret : MRet io := fun _ a w => (Done a, w).
#[global] Instance io_bind : MBind io := fun _ _ k m w =>
  match m w with
  | (Done a, w') => k a w'
  | (Raised e, w') => (Raised e, w')
  | (Running, w') => (Running, w')
  end.

Definition perform (ev : event) : io unit := fun w =>
  match schedule w with
  | Some e :: rest => (Raised e, {| schedule := rest; trace := trace w |})
  | None :: rest =>
      (Done tt, {| schedule := rest; trace := trace w ++ [ev] |})
  | [] => (Done tt, {| schedule := []; trace := trace w ++ [ev] |})
  end.

Definition sleep (seconds : Q) : io unit := perform (Sleep seconds).
(** [print(text)]; the event records the argument. *)
Definition print (text : string) : io unit := perform (Print text).

Definition raise {A : Type} (e : exn) : io A := fun w => (Raised e, w).

Definition lift {A : Type} (r : result A) : io A := fun w =>
  match r with
  | Ok a => (Done a, w)
  | Raise e => (Raised e, w)
  end.

(** [try: body  except C: handler], with [caught e] for [isinstance(e, C)]. *)
Definition try_except {A : Type} (body : io A) (caught : exn -> bool)
    (handler : exn -> io A) : io A := fun w =>
  match body w with
  | (Raised e, w') => if caught e then handler e w' else (Raised e, w')
  | other => other
  end.

Fixpoint for_io {A : Type} (xs : list A) (body : A -> io unit) : io unit :=
  match xs with
  | [] => mret tt
  | x :: xs' => body x ≫= fun _ => for_io xs' body
  end.

(** [while True: body], run for at most [fuel] rounds. *)
Fixpoint while_True (fuel : nat) (body : io unit) : io unit :=
  match fuel with
  | O => fun w => (Running, w)
  | S fuel' => body ≫= fun _ => while_True fuel' body
  end.

(** [enumerate(l)] *)
Definition enumerate {A : Type} (l : list A) : list (nat * A) :=
  imap (fun i a => (i, a)) l.

(** Body of [for i, frame in enumerate(frames)]. *)
Definition play_frame (self : TerminalImage) (item : nat * string)
    : io unit :=
  let '(i, frame) := item in
  seconds ← lift (list_get (durations self) i);
  sleep seconds ≫= fun _ =>
  print (NL +:+ NL +:+ frame).

(** [for i, frame in enumerate(frames): sleep(...); print(...)] *)
Definition play (self : TerminalImage) (frames : list string) : io unit :=
  for_io (enumerate frames) (play_frame self).

(** The [try] block of [TerminalImage.show]. *)
Definition show_body (fuel : nat) (self : TerminalImage) (animated : bool)
    (repeat : Z) : io unit :=
  frames ← (if animated then mret (frames self)
             else lift (py_index (frames self) 0) ≫= fun frame =>
                  mret [frame]);
  if repeat <=? -1 then while_True fuel (play self frames)
  else for_io (range (Z.to_nat (repeat + 1))) (fun rep => play self frames).

(** [TerminalImage.show(animated, repeat)] *)
Definition show (fuel : nat) (self : TerminalImage) (animated : bool)
    (repeat : Z) : io unit :=
  try_except (show_body fuel self animated repeat)
    is_Exception
    (fun e => print Style.RESET_ALL ≫= fun _ => raise e).

(** A world in which no call fails, after the calls of [t]. *)
Definition quiet (t : list event) : world := {| schedule := []; trace := t |}.

(** The world [show] starts in when nothing will fail. *)
Definition calm : world := quiet [].


(** What one pass over [frames] does when nothing fails: for each frame,
    a sleep of the duration at its position, then the print. *)
Definition pass_events (frames : list string) (durations : list Q)
    : list event :=
  flat_map (fun fd => [Sleep (snd fd); Print (NL +:+ NL +:+ fst fd)])
    (zip frames durations).

(** The texts printed, in order. *)
Definition printed (t : list event) : list string :=
  omap (fun ev => match ev with Print s => Some s | Sleep _ => None end) t.

(** What is checked of slot [i] of the palette: it holds a triple; below
    24 it is the triple of [COLORS[i]], whose code is [color(i)]; from 24 on
    it is the triple of slot 0. *)
Definition palette_slot_ok (i : nat) : bool :=
  match palette_rgb PALETTE_DATA i with
  | Some c =>
      if (i <? 24)%nat
      then match COLORS !! i with
           | Some entry =>
               bool_decide (fst entry = c)
               && bool_decide (color (Z.of_nat i) = Ok (snd entry))
           | None => false
           end
      else bool_decide (palette_rgb PALETTE_DATA 0 = Some c)
  | None => false
  end.

(** ** Reading the renderer's loops

    The definitions below describe the output of the two loops over the
    stream of pixels; the loops are proved equal to them further down. *)

#[global] Instance result_fmap : FMap result := fun _ _ f r =>
  match r with
  | Ok a => Ok (f a)
  | Raise e => Raise e
  end.

Fixpoint traverse {A B : Type} (f : A -> result B) (l : list A)
    : result (list B) :=
  match l with
  | [] => Ok []
  | a :: l' =>
      match f a with
      | Ok b =>
          match traverse f l' with
          | Ok bs => Ok (b :: bs)
          | Raise e => Raise e
          end
      | Raise e => Raise e
      end
  end.

(** The fully-styled glyph of a palette index: [color(pixel) + PIXEL]. *)
Definition glyph (pixel : Z) : result string :=
  c ← color pixel;
  mret (c +:+ PIXEL).

(** The pixels of row [y], left to right, and all rows, top to bottom. *)
Definition row_pixels (img : Image Z) (y : nat) : list Z :=
  map (fun x => getpixel img x y) (range (width img)).

Definition pixel_rows (img : Image Z) : list (list Z) :=
  map (row_pixels img) (range (height img)).

(** The pixels in row-major output order. *)
Definition pixel_stream (img : Image Z) : list Z := concat (pixel_rows img).

(** The value of [last] after the glyphs [gs] have been emitted. *)
Definition carry (prev : option string) (gs : list string) : option string :=
  fold_left (fun _ g => Some g) gs prev.

(** What is emitted for the glyphs [gs] when [last] starts as [prev]. *)
Fixpoint suppress (prev : option string) (gs : list string) : list string :=
  match gs with
  | [] => []
  | g :: gs' =>
      (if decide (Some g = prev) then PIXEL else g) :: suppress (Some g) gs'
  end.

Fixpoint suppress_rows (prev : option string) (gss : list (list string))
    : list (list string) :=
  match gss with
  | [] => []
  | gs :: gss' => suppress prev gs :: suppress_rows (carry prev gs) gss'
  end.

(** [n] bare blocks in a row. *)
Fixpoint blocks (n : nat) : string :=
  match n with
  | O => EmptyString
  | S n' => PIXEL +:+ blocks n'
  end.

(** Sample images used to exercise the statements. *)
Definition two_frames : TerminalImage :=
  {| frames := ["A"; "B"]; durations := [(1 # 10)%Q; (1 # 5)%Q] |}.

Definition still : TerminalImage :=
  {| frames := ["X"]; durations := [(1 # 5)%Q] |}.

(** A 2 x 2 grid: dark, grey / dark, dark. *)
Definition grid22 : Image Z :=
  {| width := 2; height := 2;
     getpixel := fun x y => if (x =? 1)%nat && (y =? 0)%nat then 3 else 0 |}.

(** A sample host. A decoded picture is a sequence of frames, each an
    index grid with its metadata; conversion to RGB puts the index in the
    red channel and quantization reads it back; resizing refuses sizes
    that are not positive and otherwise keeps the grid. *)
Definition sample_picture : Type := list (Image Z * gmap string Z).

Definition sample_convert_RGB (image : sample_picture) : Image rgb :=
  match image with
  | (grid, _) :: _ =>
      {| width := width grid; height := height grid;
         getpixel := fun x y => (getpixel grid x y, 0, 0) |}
  | [] => {| width := 0; height := 0; getpixel := fun _ _ => (0, 0, 0) |}
  end.

Definition sample_convert_P (image : Image rgb) (palette : list Z)
    : Image Z :=
  {| width := width image; height := height image;
     getpixel := fun x y => fst (fst (getpixel image x y)) |}.

Definition sample_resize (image : Image Z) (size : Z * Z) (mode : Resample)
    : result (Image Z) :=
  if (0 <? fst size) && (0 <? snd size) then Ok image else Raise ValueError.

Definition sample_Iterator (image : sample_picture) : list sample_picture :=
  map (fun frame => [frame]) image.

Definition sample_info (image : sample_picture) : gmap string Z :=
  match image with
  | (_, metadata) :: _ => metadata
  | [] => ∅
  end.

(** The codec of the sample host: a file holding ["gif"] decodes to the
    two-frame [sample_gif], anything else is not an image. *)
Definition sample_gif : sample_picture :=
  [(grid22, {["duration" := 40]}); (grid22, ∅)].

Definition sample_decode (bytes : string) : result sample_picture :=
  if decide (bytes = "gif") then Ok sample_gif
  else Raise (OSError "cannot identify image file").

Definition sample_TerminalImage_init
    : sample_picture -> result TerminalImage :=
  TerminalImage_init sample_convert_RGB sample_convert_P sample_resize
    (80, 24) sample_Iterator sample_info.

(** The transcoder of the sample host writes a file that decodes, at
    the path given as its last argument, and exits with 0; it exits with
    1, writing a partial file, when the input is called [broken.mp4]. *)
Definition sample_run_process (fs : gmap string string) (argv : list string)
    : result (Z * gmap string string) :=
  match argv !! 2%nat, last argv with
  | Some in_path, Some out_path =>
      if decide (in_path = "/home/broken.mp4")
      then Ok (1, <[out_path := "partial"]> fs)
      else Ok (0, <[out_path := "gif"]> fs)
  | _, _ => Raise (OSError "bad command line")
  end.

Definition sample_abspath (path : string) : string := "/home/" +:+ path.

(** A host where the temporary path of [broken.mp4] is a directory: the
    transcoder exits with 1 without writing, and the directory cannot be
    removed as a file. *)
Definition sample_dir_fs : gmap string string :=
  {["broken.mp4" := "video"; "/home/broken.mp4.temp.gif" := ""]}.

Definition sample_ffmpeg_fails (fs : gmap string string)
    (argv : list string) : result (Z * gmap string string) :=
  Ok (1, fs).

Definition sample_refuses_directory (fs : gmap string string)
    (path : string) : option refusal :=
  if decide (path = "/home/broken.mp4.temp.gif") then Some is_a_directory
  else None.

(** On the sample host every entry can be removed. *)
Definition sample_never_refuses (fs : gmap string string) (path : string)
    : option refusal := None.

Definition sample_fs : gmap string string :=
  {["clip.mp4" := "video"; "broken.mp4" := "video"]}.

Definition sample_from_path
    : gmap string string -> string ->
      result TerminalImage * gmap string string :=
  from_path sample_convert_RGB sample_convert_P sample_resize (80, 24)
    sample_Iterator sample_info sample_decode sample_run_process
    sample_never_refuses sample_abspath "/opt/imagedisplay/palette.png".

(** What the loops of [image_to_str] build for [grid22]. *)
Definition grid22_content : list (list string) :=
  [[Fore.BLACK +:+ Style.DIM +:+ PIXEL; Fore.WHITE +:+ Style.DIM +:+ PIXEL];
   [Fore.BLACK +:+ Style.DIM +:+ PIXEL; PIXEL]].

(** A cell that shows as one block once the styling is stripped. *)
Definition shows_block (cell : string) : Prop :=
  forall s : string,
    strip_from false (cell +:+ s) = PIXEL +:+ strip_from false s.

(** ** The remaining members of [TerminalImage] *)

(** A byte that is not a UTF-8 continuation byte (10xxxxxx) starts a code
    point. *)
Definition starts_code_point (c : ascii) : bool :=
  match c with
  | Ascii _ _ _ _ _ _ b6 b7 => negb (b7 && negb b6)
  end.

(** [len(s)]: the number of code points of a string held as UTF-8. *)
Fixpoint py_len (s : string) : nat :=
  match s with
  | EmptyString => O
  | String c s' => ((if starts_code_point c then 1 else 0) + py_len s')%nat
  end.

(** [TerminalImage.chars]: [sum(len(frame) for frame in self.frames)]. *)
Definition chars (self : TerminalImage) : nat :=
  sum_list (map py_len (frames self)).

(** [TerminalImage.__str__] *)
Definition __str__ (self : TerminalImage) : result string :=
  py_index (frames self) 0.

(** [TerminalImage.__len__] *)
Definition __len__ (self : TerminalImage) : nat := length (frames self).

(** ** The palette image *)

(** [Image.new('P', size)]: every pixel is index 0. *)
Definition Image_new (size : nat * nat) : Image Z :=
  {| width := fst size; height := snd size; getpixel := fun _ _ => 0 |}.

(** [image.putpixel(xy, value)]; a position outside the image raises
    [IndexError]. *)
Definition putpixel (img : Image Z) (xy : nat * nat) (value : Z)
    : result (Image Z) :=
  let '(x, y) := xy in
  if decide ((x < width img)%nat /\ (y < height img)%nat)
  then Ok {| width := width img; height := height img;
             getpixel := fun x' y' =>
               if decide (x' = x /\ y' = y) then value
               else getpixel img x' y' |}
  else Raise IndexError.

(** Body of [for y in range(16)] at module level. *)
Definition palette_row (img : Image Z) (y : nat) : result (Image Z) :=
  for_each (range 16)
    (fun img x => putpixel img (x, y) (Z.of_nat x + Z.of_nat y * 16)) img.

(** [PALETTE], as to its pixels: [Image.new('P', (16, 16))] filled by the
    two loops. *)
Definition PALETTE : result (Image Z) :=
  for_each (range 16) palette_row (Image_new (16%nat, 16%nat)).

(** ** Entry point *)

Section EntryPoint.
Context {Picture : Type}.
Variable convert_RGB : Picture -> Image rgb.
Variable convert_P : Image rgb -> list Z -> Image Z.
Variable resize : Image Z -> Z * Z -> Resample -> result (Image Z).
Variable terminal : Z * Z.
Variable ImageSequence_Iterator : Picture -> list Picture.
Variable info : Picture -> gmap string Z.
Variable decode : string -> result Picture.
Variable run_process :
  gmap string string -> list string -> result (Z * gmap string string).
Variable refuses : gmap string string -> string -> option refusal.
Variable abspath : string -> string.
Variable PALETTE_PATH : string.

(** The block under [if __name__ == '__main__'], for [sys.argv = argv].
    [w] is the world of the first call of [print] or [sleep] made here by
    the block itself or by [show]; what [from_path] writes on its way is
    not recorded. [sys.exit(0)] raises [SystemExit]. *)
Definition main (fuel : nat) (argv : list string) (fs : gmap string string)
    (w : world) : outcome unit * gmap string string * world :=
  if decide (length argv ≠ 2%nat) then
    match py_index argv 0 with
    | Ok program =>
        let '(o, w') :=
          print ("SYNTAX: python3 " +:+ program +:+ " [path]") w in
        (o, fs, w')
    | Raise e => (Raised e, fs, w)
    end
  else
    match py_index argv 1 with
    | Ok path =>
        match from_path convert_RGB convert_P resize terminal
                ImageSequence_Iterator info decode run_process refuses abspath
                PALETTE_PATH fs path with
        | (Ok img, fs') =>
            let '(o, w') :=
              (if decide (1 < __len__ img)%nat
               then show fuel img true (-1)
               else show fuel img false 0) w in
            match o with
            | Done _ => (Raised SystemExit, fs', w')
            | _ => (o, fs', w')
            end
        | (Raise e, fs') => (Raised e, fs', w)
        end
    | Raise e => (Raised e, fs, w)
    end.
End EntryPoint.

Definition sample_main
    : nat -> list string -> gmap string string -> world ->
      outcome unit * gmap string string * world :=
  main sample_convert_RGB sample_convert_P sample_resize (80, 24)
    sample_Iterator sample_info sample_decode sample_run_process
    sample_never_refuses sample_abspath "/opt/imagedisplay/palette.png".

(** Further samples: a grid with an index outside the color table, an
    animation whose second frame is that grid, and a resize that returns
    the size it is asked for (nearest pixel). *)
Definition bad_grid : Image Z :=
  {| width := 1; height := 1; getpixel := fun _ _ => 24 |}.

Definition sample_bad_gif : sample_picture :=
  [(grid22, ∅); (bad_grid, ∅)].

Definition sample_resize_exact (image : Image Z) (size : Z * Z)
    (mode : Resample) : result (Image Z) :=
  if (0 <? fst size) && (0 <? snd size)
  then Ok {| width := Z.to_nat (fst size); height := Z.to_nat (snd size);
             getpixel := fun x y =>
               getpixel image
                 (x * width image / Z.to_nat (fst size))%nat
                 (y * height image / Z.to_nat (snd size))%nat |}
  else Raise ValueError.

(** [sample_gif] as constructed on a terminal of 6 columns and 5 lines. *)
Definition sample_small : TerminalImage :=
  Eval vm_compute in
    match TerminalImage_init sample_convert_RGB sample_convert_P
            sample_resize_exact (6, 5) sample_Iterator sample_info
            sample_gif with
    | Ok self => self
    | Raise _ => {| frames := []; durations := [] |}
    end.

(** A codec that also knows a still image, a disk that holds one, and a
    host on which the transcoder is not installed. *)
Definition sample_decode_any (bytes : string) : result sample_picture :=
  if decide (bytes = "png") then Ok [(grid22, ∅)] else sample_decode bytes.

Definition sample_disk : gmap string string :=
  {["pic.png" := "png"; "pic.gif" := "gif"; "clip.mp4" := "video"]}.

Definition sample_no_ffmpeg (fs : gmap string string) (argv : list string)
    : result (Z * gmap string string) :=
  Raise FileNotFoundError.

Definition sample_still : TerminalImage :=
  {| frames := [join_content grid22_content];
     durations := [Qdiv (inject_Z 200) (inject_Z 1000)] |}.

Definition sample_animation : TerminalImage :=
  {| frames := [join_content grid22_content; join_content grid22_content];
     durations := [Qdiv (inject_Z 40) (inject_Z 1000);
                   Qdiv (inject_Z 200) (inject_Z 1000)] |}.

(** Performing a list of events, one call after the other. *)
Definition run (evs : list event) : io unit := for_io evs perform.

(** The end of fuel. *)
Definition out_of_fuel : io unit := fun w => (Running, w).

(** The events of [show] when nothing fails: the passes over the frames
    it plays, [fuel] of them for an endless animation. *)
Definition show_events (fuel : nat) (self : TerminalImage) (animated : bool)
    (repeat : Z) : list event :=
  let played := if animated then frames self else take 1 (frames self) in
  concat (replicate (if repeat <=? -1 then fuel else Z.to_nat (repeat + 1))
            (pass_events played (durations self))).

(** * Properties *)

(** ** Palette *)

Lemma palette_slots_ok : forallb palette_slot_ok (seq 0 256) = true.
Proof. vm_compute. reflexivity. Qed.

Lemma palette_slot_ok_at (i : nat) :
  (i < 256)%nat -> palette_slot_ok i = true.
Proof.
  intros Hi. pose proof palette_slots_ok as H.
  rewrite forallb_forall in H. apply H. apply in_seq. lia.
Qed.




(** ** Player *)

Lemma lift_Ok_bind {A B : Type} (a : A) (k : A -> io B) (w : world) :
  (lift (Ok a) ≫= k) w = k a w.
Proof. reflexivity. Qed.

Lemma play_frames_quiet (self : TerminalImage) (fs : list string) :
  forall (k : nat) (t : list event),
    (k + length fs <= length (durations self))%nat ->
    for_io (imap (fun i a => ((k + i)%nat, a)) fs) (play_frame self) (quiet t)
    = (Done tt, quiet (t ++ pass_events fs (drop k (durations self)))).
Proof.
  induction fs as [|f fs IH]; intros k t Hlen.
  - unfold pass_events. simpl. rewrite app_nil_r. reflexivity.
  - simpl in Hlen.
    destruct (lookup_lt_is_Some_2 (durations self) k ltac:(lia)) as [d Hd].
    rewrite (drop_S _ _ _ Hd).
    rewrite imap_cons. cbn [for_io].
    rewrite (imap_ext _ (fun i a => ((S k + i)%nat, a)))
      by (intros; simpl; f_equal; lia).
    unfold mbind at 1, io_bind at 1.
    replace (play_frame self ((k + 0)%nat, f) (quiet t))
      with (Done tt, quiet ((t ++ [Sleep d]) ++ [Print (NL +:+ NL +:+ f)])).
    + rewrite IH by lia. unfold pass_events. simpl.
      rewrite <- !app_assoc. reflexivity.
    + unfold play_frame. rewrite Nat.add_0_r.
      unfold list_get. rewrite Hd. reflexivity.
Qed.

Lemma play_quiet (self : TerminalImage) (fs : list string) (t : list event) :
  (length fs <= length (durations self))%nat ->
  play self fs (quiet t)
  = (Done tt, quiet (t ++ pass_events fs (durations self))).
Proof.
  intros Hlen. unfold play, enumerate.
  apply (play_frames_quiet self fs 0 t). lia.
Qed.

Lemma for_io_play_quiet {A : Type} (self : TerminalImage)
    (fs : list string) (xs : list A) :
  (length fs <= length (durations self))%nat ->
  forall t : list event,
    for_io xs (fun _ => play self fs) (quiet t)
    = (Done tt,
       quiet (t ++ concat (replicate (length xs)
                             (pass_events fs (durations self))))).
Proof.
  intros Hlen. induction xs as [|x xs IH]; intros t.
  - simpl. rewrite app_nil_r. reflexivity.
  - cbn [for_io]. unfold mbind at 1, io_bind at 1.
    rewrite play_quiet by exact Hlen. rewrite IH. simpl.
    rewrite <- app_assoc. reflexivity.
Qed.

Lemma while_True_play_quiet (self : TerminalImage) (fs : list string)
    (fuel : nat) :
  (length fs <= length (durations self))%nat ->
  forall t : list event,
    while_True fuel (play self fs) (quiet t)
    = (Running,
       quiet (t ++ concat (replicate fuel
                             (pass_events fs (durations self))))).
Proof.
  intros Hlen. induction fuel as [|fuel IH]; intros t.
  - simpl. rewrite app_nil_r. reflexivity.
  - cbn [while_True]. unfold mbind at 1, io_bind at 1.
    rewrite play_quiet by exact Hlen. rewrite IH. simpl.
    rewrite <- app_assoc. reflexivity.
Qed.

Lemma printed_app (t1 t2 : list event) :
  printed (t1 ++ t2) = printed t1 ++ printed t2.
Proof. apply omap_app. Qed.

Lemma printed_pass_events (fs : list string) (ds : list Q) :
  length fs = length ds ->
  printed (pass_events fs ds) = map (fun f => NL +:+ NL +:+ f) fs.
Proof.
  revert ds. induction fs as [|f fs IH]; intros [|d ds] Hlen;
    try discriminate; [reflexivity|].
  unfold pass_events, printed in *. simpl. f_equal.
  apply IH. simpl in Hlen. lia.
Qed.

Lemma printed_passes (n : nat) (t : list event) :
  printed (concat (replicate n t)) = concat (replicate n (printed t)).
Proof.
  induction n as [|n IH]; [reflexivity|].
  simpl. rewrite printed_app, IH. reflexivity.
Qed.

Lemma length_concat_replicate {A : Type} (n : nat) (l : list A) :
  length (concat (replicate n l)) = (n * length l)%nat.
Proof.
  induction n as [|n IH]; [reflexivity|].
  simpl. rewrite length_app, IH. reflexivity.
Qed.

(** C4. With [animated=True] and [repeat = r >= 0], on an image whose
    frames each have their recorded duration, [show] returns after
    [r + 1] passes over the frames in their order, each print preceded by
    the sleep of that frame's duration: [(r + 1) * N] prints in all. *)
Theorem show_animated_repeats (self : TerminalImage) (r : Z) (fuel : nat) :
  length (durations self) = length (frames self) ->
  0 <= r ->
  show fuel self true r calm
  = (Done tt,
     quiet (concat (replicate (Z.to_nat (r + 1))
                      (pass_events (frames self) (durations self)))))
  /\ printed (trace (snd (show fuel self true r calm)))
     = concat (replicate (Z.to_nat (r + 1))
                 (map (fun f => NL +:+ NL +:+ f) (frames self)))
  /\ Z.of_nat (length (printed (trace (snd (show fuel self true r calm)))))
     = (r + 1) * Z.of_nat (length (frames self)).
Proof.
  intros Hlen Hr.
  assert (Hshow : show fuel self true r calm
    = (Done tt,
       quiet (concat (replicate (Z.to_nat (r + 1))
                        (pass_events (frames self) (durations self)))))).
  { unfold show, try_except, show_body.
    unfold mbind at 1, io_bind at 1. cbn [mret io_ret].
    destruct (Z.leb_spec r (-1)) as [?|_]; [lia|].
    change calm with (quiet []).
    rewrite for_io_play_quiet by lia.
    unfold range. rewrite length_seq. reflexivity. }
  rewrite Hshow. cbn [snd trace quiet].
  rewrite printed_passes, printed_pass_events by lia.
  repeat split.
  rewrite length_concat_replicate, length_map. lia.
Qed.

Lemma show_animated_repeats_witness :
  show 0 two_frames true 2 calm
  = (Done tt,
     quiet (concat (replicate (Z.to_nat (2 + 1))
                      (pass_events (frames two_frames)
                         (durations two_frames)))))
  /\ printed (trace (snd (show 0 two_frames true 2 calm)))
     = concat (replicate (Z.to_nat (2 + 1))
                 (map (fun f => NL +:+ NL +:+ f) (frames two_frames)))
  /\ Z.of_nat (length (printed (trace (snd (show 0 two_frames true 2 calm)))))
     = (2 + 1) * Z.of_nat (length (frames two_frames)).
Proof. apply (show_animated_repeats two_frames 2 0); [reflexivity | lia]. Defined.

(** C1, as the code has it. With [animated=False], [show] plays frame 0
    and no other frame: for [repeat = r >= 0] it returns after sleeping
    and printing frame 0 exactly [r + 1] times (once when [r = 0]); for
    [repeat <= -1] it keeps doing so and never returns. *)
Theorem show_still_repeats (self : TerminalImage) (f0 : string) (d0 : Q) :
  frames self !! 0%nat = Some f0 ->
  durations self !! 0%nat = Some d0 ->
  (forall (r : Z) (fuel : nat), 0 <= r ->
     show fuel self false r calm
     = (Done tt,
        quiet (concat (replicate (Z.to_nat (r + 1))
                         [Sleep d0; Print (NL +:+ NL +:+ f0)]))))
  /\ (forall (r : Z) (fuel : nat), r <= -1 ->
        show fuel self false r calm
        = (Running,
           quiet (concat (replicate fuel
                            [Sleep d0; Print (NL +:+ NL +:+ f0)])))).
Proof.
  intros Hf Hd.
  assert (Hlen : (length [f0] <= length (durations self))%nat).
  { apply lookup_lt_Some in Hd. simpl. lia. }
  assert (Hpass : pass_events [f0] (durations self)
                  = [Sleep d0; Print (NL +:+ NL +:+ f0)]).
  { destruct (durations self) as [|d ds]; [discriminate|].
    simpl in Hd. injection Hd as ->. reflexivity. }
  assert (Hidx : py_index (frames self) 0 = Ok f0).
  { unfold py_index.
    change (if 0 <? 0 then 0 + Z.of_nat (length (frames self)) else 0)
      with 0.
    change (Z.to_nat 0) with 0%nat. rewrite Hf. reflexivity. }
  split; intros r fuel Hr.
  - unfold show, try_except, show_body.
    unfold mbind at 1, io_bind at 1. rewrite Hidx, lift_Ok_bind.
    cbn [mret io_ret].
    destruct (Z.leb_spec r (-1)) as [?|_]; [lia|].
    change calm with (quiet []).
    rewrite for_io_play_quiet by exact Hlen.
    unfold range. rewrite length_seq, Hpass. reflexivity.
  - unfold show, try_except, show_body.
    unfold mbind at 1, io_bind at 1. rewrite Hidx, lift_Ok_bind.
    cbn [mret io_ret].
    destruct (Z.leb_spec r (-1)) as [_|?]; [|lia].
    change calm with (quiet []).
    rewrite while_True_play_quiet by exact Hlen.
    rewrite Hpass. reflexivity.
Qed.

Lemma show_still_repeats_witness :
  (forall (r : Z) (fuel : nat), 0 <= r ->
     show fuel still false r calm
     = (Done tt,
        quiet (concat (replicate (Z.to_nat (r + 1))
                         [Sleep (1 # 5); Print (NL +:+ NL +:+ "X")]))))
  /\ (forall (r : Z) (fuel : nat), r <= -1 ->
        show fuel still false r calm
        = (Running,
           quiet (concat (replicate fuel
                            [Sleep (1 # 5); Print (NL +:+ NL +:+ "X")])))).
Proof. apply (show_still_repeats still "X" (1 # 5)%Q); reflexivity. Defined.

(** C1 as stated fails: with [animated=False] and [repeat=2] the single
    frame is printed three times, not once. *)
Lemma show_still_repeat_2_prints_thrice :
  printed (trace (snd (show 0 still false 2 calm)))
  = [NL +:+ NL +:+ "X"; NL +:+ NL +:+ "X"; NL +:+ NL +:+ "X"]
  /\ printed (trace (snd (show 0 still false 2 calm)))
     <> [NL +:+ NL +:+ "X"].
Proof. split; [vm_compute; reflexivity | vm_compute; discriminate]. Qed.

(** What the handler of [show] achieves: when the [try] block raises an
    exception of class [Exception] and the print of the reset sequence
    goes through, the reset sequence is the last thing printed and the
    exception is raised again. *)
Lemma show_resets_on_Exception (fuel : nat) (self : TerminalImage)
    (animated : bool) (repeat : Z) (w w' : world) (e : exn) :
  show_body fuel self animated repeat w = (Raised e, w') ->
  is_Exception e = true ->
  head (schedule w') = None \/ head (schedule w') = Some None ->
  show fuel self animated repeat w
  = (Raised e,
     {| schedule := tail (schedule w');
        trace := trace w' ++ [Print Style.RESET_ALL] |}).
Proof.
  intros Hbody He Hnext. unfold show, try_except. rewrite Hbody, He.
  unfold mbind, io_bind, print, perform, raise.
  destruct (schedule w') as [|[e'|] rest]; simpl in *.
  - reflexivity.
  - destruct Hnext; discriminate.
  - reflexivity.
Qed.

(** An exception outside class [Exception] passes the handler by. *)
Lemma show_passes_BaseException (fuel : nat) (self : TerminalImage)
    (animated : bool) (repeat : Z) (w w' : world) (e : exn) :
  show_body fuel self animated repeat w = (Raised e, w') ->
  is_Exception e = false ->
  show fuel self animated repeat w = (Raised e, w').
Proof.
  intros Hbody He. unfold show, try_except. rewrite Hbody, He. reflexivity.
Qed.

(** C2 fails on the code. A keyboard interrupt arriving during the sleep
    before the second frame of an endless animation leaves [show] with
    [KeyboardInterrupt] raised and no reset sequence printed; an
    [OSError] at the same point does get the reset sequence. *)
Theorem show_keyboard_interrupt_no_reset :
  let interrupted :=
    {| schedule := [None; None; Some KeyboardInterrupt]; trace := [] |} in
  let broken :=
    {| schedule := [None; None; Some (OSError "pipe")]; trace := [] |} in
  show 2 two_frames true (-1) interrupted
  = (Raised KeyboardInterrupt,
     quiet [Sleep (1 # 10); Print (NL +:+ NL +:+ "A")])
  /\ show 2 two_frames true (-1) broken
     = (Raised (OSError "pipe"),
        quiet [Sleep (1 # 10); Print (NL +:+ NL +:+ "A");
               Print Style.RESET_ALL]).
Proof. split; vm_compute; reflexivity. Qed.

(** ** Renderer *)

Lemma append_nil_r (s : string) : s +:+ "" = s.
Proof.
  induction s as [|c s IH]; [reflexivity|].
  change (String c s +:+ "") with (String c (s +:+ "")). by rewrite IH.
Qed.

Lemma append_assoc (s1 s2 s3 : string) :
  (s1 +:+ s2) +:+ s3 = s1 +:+ s2 +:+ s3.
Proof.
  induction s1 as [|c s1 IH]; [reflexivity|].
  change ((String c s1 +:+ s2) +:+ s3) with (String c ((s1 +:+ s2) +:+ s3)).
  by rewrite IH.
Qed.

Lemma carry_cons (prev : option string) (g : string) (gs : list string) :
  carry prev (g :: gs) = carry (Some g) gs.
Proof. reflexivity. Qed.

Lemma carry_app (prev : option string) (gs1 gs2 : list string) :
  carry prev (gs1 ++ gs2) = carry (carry prev gs1) gs2.
Proof. unfold carry. apply fold_left_app. Qed.

Lemma suppress_app (gs1 gs2 : list string) :
  forall prev : option string,
    suppress prev (gs1 ++ gs2)
    = suppress prev gs1 ++ suppress (carry prev gs1) gs2.
Proof.
  induction gs1 as [|g gs1 IH]; intros prev; [reflexivity|].
  simpl. rewrite IH. reflexivity.
Qed.

Lemma length_suppress (gs : list string) :
  forall prev : option string, length (suppress prev gs) = length gs.
Proof.
  induction gs as [|g gs IH]; intros prev; [reflexivity|].
  simpl. by rewrite IH.
Qed.

Lemma concat_suppress_rows (gss : list (list string)) :
  forall prev : option string,
    concat (suppress_rows prev gss) = suppress prev (concat gss).
Proof.
  induction gss as [|gs gss IH]; intros prev; [reflexivity|].
  simpl. rewrite suppress_app, IH. reflexivity.
Qed.

Lemma traverse_app {A B : Type} (f : A -> result B) (l1 l2 : list A) :
  traverse f (l1 ++ l2)
  = (bs1 ← traverse f l1; bs2 ← traverse f l2; mret (bs1 ++ bs2)).
Proof.
  induction l1 as [|a l1 IH]; simpl.
  - destruct (traverse f l2); reflexivity.
  - destruct (f a) as [b|e]; [|reflexivity].
    rewrite IH. destruct (traverse f l1) as [bs1|e]; [|reflexivity].
    simpl. destruct (traverse f l2); reflexivity.
Qed.

Lemma traverse_concat {A B : Type} (f : A -> result B) (ll : list (list A))
    (bss : list (list B)) :
  traverse (traverse f) ll = Ok bss ->
  traverse f (concat ll) = Ok (concat bss).
Proof.
  revert bss. induction ll as [|l ll IH]; intros bss H; simpl in *.
  - injection H as <-. reflexivity.
  - destruct (traverse f l) as [bs|e] eqn:Hl; [|discriminate].
    destruct (traverse (traverse f) ll) as [bss'|e] eqn:Hll; [|discriminate].
    injection H as <-. rewrite traverse_app, Hl. simpl.
    rewrite (IH bss' eq_refl). reflexivity.
Qed.

Lemma traverse_lookup {A B : Type} (f : A -> result B) (l : list A)
    (bs : list B) :
  traverse f l = Ok bs ->
  length bs = length l
  /\ forall (k : nat) (b : B),
       bs !! k = Some b -> exists a : A, l !! k = Some a /\ f a = Ok b.
Proof.
  revert bs. induction l as [|a l IH]; intros bs H; simpl in *.
  - injection H as <-. split; [reflexivity|]. intros k b Hk. discriminate.
  - destruct (f a) as [b0|e] eqn:Hfa; [|discriminate].
    destruct (traverse f l) as [bs'|e] eqn:Hl; [|discriminate].
    injection H as <-. destruct (IH bs' eq_refl) as [Hlen Hall].
    split; [simpl; by rewrite Hlen|].
    intros [|k] b Hk; simpl in Hk.
    + injection Hk as <-. exists a. split; [reflexivity | exact Hfa].
    + destruct (Hall k b Hk) as (a' & Ha' & Hfa'). exists a'. split; assumption.
Qed.

Lemma emit_at_end (img : Image Z) (y x : nat) (done : list (list string))
    (line : list string) (prev : option string) (c : string) :
  length done = y ->
  color (getpixel img x y) = Ok c ->
  emit img y (prev, done ++ [line]) x
  = Ok (Some (c +:+ PIXEL),
        done ++ [line ++ [if decide (Some (c +:+ PIXEL) = prev)
                          then PIXEL else c +:+ PIXEL]]).
Proof.
  intros <- Hc. unfold emit. rewrite Hc.
  unfold list_get. cbn [mbind result_bind mret result_ret].
  rewrite lookup_app_r, Nat.sub_diag by lia. cbn [lookup list_lookup].
  cbn [mbind result_bind mret result_ret].
  rewrite insert_app_r_alt, Nat.sub_diag by lia. reflexivity.
Qed.

Lemma emit_raises (img : Image Z) (y x : nat) (st : render_state) (e : exn) :
  color (getpixel img x y) = Raise e -> emit img y st x = Raise e.
Proof. intros Hc. destruct st. unfold emit. rewrite Hc. reflexivity. Qed.

Lemma glyph_of_color (p : Z) (c : string) :
  color p = Ok c -> glyph p = Ok (c +:+ PIXEL).
Proof. intros H. unfold glyph. rewrite H. reflexivity. Qed.

Lemma glyph_raises (p : Z) (e : exn) : color p = Raise e -> glyph p = Raise e.
Proof. intros H. unfold glyph. rewrite H. reflexivity. Qed.

(** The inner loop emits the suppressed glyphs of its pixels at the end of
    the row under construction. *)
Lemma emit_loop (img : Image Z) (y : nat) (done : list (list string)) :
  length done = y ->
  forall (xs : list nat) (prev : option string) (line : list string),
    for_each xs (emit img y) (prev, done ++ [line])
    = (gs ← traverse glyph (map (fun x => getpixel img x y) xs);
       mret (carry prev gs, done ++ [line ++ suppress prev gs])).
Proof.
  intros Hy. induction xs as [|x xs IH]; intros prev line.
  - simpl. rewrite app_nil_r. reflexivity.
  - cbn [for_each map traverse].
    destruct (color (getpixel img x y)) as [c|e] eqn:Hc.
    + rewrite (emit_at_end _ _ _ _ _ _ _ Hy Hc), (glyph_of_color _ _ Hc), IH.
      destruct (traverse glyph (map (fun x0 => getpixel img x0 y) xs))
        as [gs|e]; [|reflexivity].
      cbn [mbind result_bind mret result_ret suppress].
      rewrite carry_cons, <- app_assoc. reflexivity.
    + rewrite (emit_raises _ _ _ _ _ Hc), (glyph_raises _ _ Hc). reflexivity.
Qed.

Lemma render_row_eq (img : Image Z) (y : nat) (done : list (list string))
    (prev : option string) :
  length done = y ->
  render_row img (prev, done) y
  = (gs ← traverse glyph (row_pixels img y);
     mret (carry prev gs, done ++ [suppress prev gs])).
Proof.
  intros Hy. unfold render_row. rewrite (emit_loop img y done Hy).
  reflexivity.
Qed.

(** The outer loop, over the rows [a], [a + 1], ... *)
Lemma render_rows_eq (img : Image Z) (n : nat) :
  forall (a : nat) (done : list (list string)) (prev : option string),
    length done = a ->
    for_each (seq a n) (render_row img) (prev, done)
    = (gss ← traverse (traverse glyph) (map (row_pixels img) (seq a n));
       mret (carry prev (concat gss), done ++ suppress_rows prev gss)).
Proof.
  induction n as [|n IH]; intros a done prev Ha.
  - simpl. rewrite app_nil_r. reflexivity.
  - cbn [seq for_each map traverse].
    rewrite (render_row_eq img a done prev Ha).
    destruct (traverse glyph (row_pixels img a)) as [gs|e]; [|reflexivity].
    cbn [mbind result_bind mret result_ret].
    rewrite IH by (rewrite length_app; simpl; lia).
    destruct (traverse (traverse glyph) (map (row_pixels img) (seq (S a) n)))
      as [gss|e]; [|reflexivity].
    cbn [mbind result_bind mret result_ret suppress_rows concat].
    rewrite carry_app, <- app_assoc. reflexivity.
Qed.

(** The loops of [image_to_str] produce the suppressed glyph rows. *)
Lemma image_content_of_eq (img : Image Z) :
  image_content_of img
  = (gss ← traverse (traverse glyph) (pixel_rows img);
     mret (suppress_rows None gss)).
Proof.
  unfold image_content_of, range.
  rewrite (render_rows_eq img (height img) 0 [] None eq_refl).
  unfold pixel_rows, range.
  destruct (traverse (traverse glyph) (map (row_pixels img) (seq 0 (height img))));
    reflexivity.
Qed.

Lemma suppress_lookup (gs : list string) :
  forall (prev : option string) (k : nat) (cell : string),
    suppress prev gs !! k = Some cell ->
    exists g : string,
      gs !! k = Some g
      /\ cell = if decide (Some g = match k with
                                    | O => prev
                                    | S k' => gs !! k'
                                    end)
                then PIXEL else g.
Proof.
  induction gs as [|g0 gs IH]; intros prev k cell Hk; [discriminate|].
  destruct k as [|k]; simpl in Hk.
  - injection Hk as <-. exists g0. split; reflexivity.
  - destruct (IH (Some g0) k cell Hk) as (g & Hg & Hcell).
    exists g. split; [exact Hg|].
    destruct k; exact Hcell.
Qed.

(** Every display code of the table is one escape sequence after the
    other: it starts with ESC and disappears under [strip_from]. *)
Lemma COLORS_codes :
  Forall (fun entry : rgb * string =>
            (exists s : string, snd entry = String "027" s)
            /\ forall t : string,
                 strip_from false (snd entry +:+ t) = strip_from false t)
    COLORS.
Proof. repeat constructor; eexists; reflexivity. Qed.

Lemma color_code (p : Z) (c : string) :
  color p = Ok c ->
  (exists s : string, c = String "027" s)
  /\ forall t : string, strip_from false (c +:+ t) = strip_from false t.
Proof.
  unfold color, py_index. intros H.
  destruct (_ <? 0); [discriminate|].
  destruct (COLORS !! _) as [entry|] eqn:He; [|discriminate].
  injection H as <-.
  exact (proj1 (Forall_lookup _ _) COLORS_codes _ _ He).
Qed.

Lemma glyph_inv (p : Z) (g : string) :
  glyph p = Ok g -> exists c : string, color p = Ok c /\ g = c +:+ PIXEL.
Proof.
  unfold glyph. destruct (color p) as [c|e]; [|discriminate].
  intros H. injection H as <-. exists c. split; reflexivity.
Qed.

Lemma glyph_not_bare (p : Z) (g : string) : glyph p = Ok g -> g <> PIXEL.
Proof.
  intros (c & Hc & ->)%glyph_inv.
  destruct (color_code p c Hc) as [[s ->] _]. discriminate.
Qed.

(** C5. In the output of the loops of [image_to_str], the cell at
    position [k] of the row-major order is the bare block exactly when the
    pixel just before it in that order (the last pixel of the previous row
    for the first pixel of a row) has the same fully-styled glyph;
    otherwise the cell is the pixel's fully-styled glyph. The rendered
    string is these cells, joined. *)
Theorem run_length_rule (img : Image Z) (content : list (list string)) :
  image_content_of img = Ok content ->
  render_image img = Ok (join_content content)
  /\ length (concat content) = length (pixel_stream img)
  /\ forall (k : nat) (cell : string),
       concat content !! k = Some cell ->
       exists (p : Z) (g : string),
         pixel_stream img !! k = Some p
         /\ glyph p = Ok g
         /\ (cell = PIXEL <->
             exists (k' : nat) (q : Z),
               k = S k' /\ pixel_stream img !! k' = Some q /\ glyph q = Ok g)
         /\ (cell <> PIXEL -> cell = g).
Proof.
  intros Hcontent.
  split; [unfold render_image; rewrite Hcontent; reflexivity|].
  rewrite image_content_of_eq in Hcontent.
  destruct (traverse (traverse glyph) (pixel_rows img)) as [gss|e] eqn:Hgss;
    [|discriminate].
  injection Hcontent as <-.
  apply traverse_concat in Hgss. fold (pixel_stream img) in Hgss.
  destruct (traverse_lookup _ _ _ Hgss) as [Hlen Hall].
  rewrite concat_suppress_rows, length_suppress.
  split; [exact Hlen|].
  intros k cell Hk.
  destruct (suppress_lookup _ _ _ _ Hk) as (g & Hg & Hcell).
  destruct (Hall k g Hg) as (p & Hp & Hpg).
  exists p, g. repeat split; try assumption.
  - intros ->. destruct (decide _) as [Heq|_].
    + destruct k as [|k']; [discriminate|].
      symmetry in Heq. destruct (Hall k' g Heq) as (q & Hq & Hqg).
      exists k', q. repeat split; assumption.
    + symmetry in Hcell. destruct (glyph_not_bare p g Hpg Hcell).
  - intros (k' & q & -> & Hq & Hqg).
    assert (Hk' : (k' < length (concat gss))%nat).
    { rewrite Hlen. apply lookup_lt_Some in Hq. exact Hq. }
    destruct (lookup_lt_is_Some_2 _ _ Hk') as [g' Hg'].
    destruct (Hall k' g' Hg') as (q' & Hq' & Hqg').
    assert (g' = g) by congruence. subst g'.
    rewrite Hg' in Hcell. rewrite decide_True in Hcell by reflexivity.
    exact Hcell.
  - intros Hne. destruct (decide _); [contradiction|exact Hcell].
Qed.

Lemma run_length_rule_witness :
  image_content_of grid22 = Ok grid22_content
  /\ render_image grid22 = Ok (join_content grid22_content)
  /\ length (concat grid22_content) = length (pixel_stream grid22)
  /\ forall (k : nat) (cell : string),
       concat grid22_content !! k = Some cell ->
       exists (p : Z) (g : string),
         pixel_stream grid22 !! k = Some p
         /\ glyph p = Ok g
         /\ (cell = PIXEL <->
             exists (k' : nat) (q : Z),
               k = S k' /\ pixel_stream grid22 !! k' = Some q
               /\ glyph q = Ok g)
         /\ (cell <> PIXEL -> cell = g).
Proof.
  assert (H : image_content_of grid22 = Ok grid22_content)
    by (vm_compute; reflexivity).
  split; [exact H | exact (run_length_rule grid22 grid22_content H)].
Defined.

(** *** The optimization is invisible once the styling is stripped *)

Lemma emit_unoptimized_at_end (img : Image Z) (y x : nat)
    (done : list (list string)) (line : list string) (prev : option string)
    (c : string) :
  length done = y ->
  color (getpixel img x y) = Ok c ->
  emit_unoptimized img y (prev, done ++ [line]) x
  = Ok (Some (c +:+ PIXEL), done ++ [line ++ [c +:+ PIXEL]]).
Proof.
  intros <- Hc. unfold emit_unoptimized. rewrite Hc.
  unfold list_get. cbn [mbind result_bind mret result_ret].
  rewrite lookup_app_r, Nat.sub_diag by lia. cbn [lookup list_lookup].
  cbn [mbind result_bind mret result_ret].
  rewrite insert_app_r_alt, Nat.sub_diag by lia. reflexivity.
Qed.

Lemma emit_unoptimized_loop (img : Image Z) (y : nat)
    (done : list (list string)) :
  length done = y ->
  forall (xs : list nat) (prev : option string) (line : list string),
    for_each xs (emit_unoptimized img y) (prev, done ++ [line])
    = (gs ← traverse glyph (map (fun x => getpixel img x y) xs);
       mret (carry prev gs, done ++ [line ++ gs])).
Proof.
  intros Hy. induction xs as [|x xs IH]; intros prev line.
  - simpl. rewrite app_nil_r. reflexivity.
  - cbn [for_each map traverse].
    destruct (color (getpixel img x y)) as [c|e] eqn:Hc.
    + rewrite (emit_unoptimized_at_end _ _ _ _ _ _ _ Hy Hc),
        (glyph_of_color _ _ Hc), IH.
      destruct (traverse glyph (map (fun x0 => getpixel img x0 y) xs))
        as [gs|e]; [|reflexivity].
      cbn [mbind result_bind mret result_ret].
      rewrite carry_cons, <- app_assoc. reflexivity.
    + rewrite (glyph_raises _ _ Hc). unfold emit_unoptimized.
      rewrite Hc. reflexivity.
Qed.

Lemma render_rows_unoptimized_eq (img : Image Z) (n : nat) :
  forall (a : nat) (done : list (list string)) (prev : option string),
    length done = a ->
    for_each (seq a n) (render_row_unoptimized img) (prev, done)
    = (gss ← traverse (traverse glyph) (map (row_pixels img) (seq a n));
       mret (carry prev (concat gss), done ++ gss)).
Proof.
  induction n as [|n IH]; intros a done prev Ha.
  - simpl. rewrite app_nil_r. reflexivity.
  - cbn [seq for_each map traverse]. unfold render_row_unoptimized at 1.
    rewrite (emit_unoptimized_loop img a done Ha). fold (row_pixels img a).
    destruct (traverse glyph (row_pixels img a)) as [gs|e]; [|reflexivity].
    cbn [mbind result_bind mret result_ret].
    rewrite IH by (rewrite length_app; simpl; lia).
    destruct (traverse (traverse glyph) (map (row_pixels img) (seq (S a) n)))
      as [gss|e]; [|reflexivity].
    cbn [mbind result_bind mret result_ret concat].
    rewrite carry_app, <- app_assoc. reflexivity.
Qed.

Lemma render_image_eq (img : Image Z) :
  render_image img
  = (gss ← traverse (traverse glyph) (pixel_rows img);
     mret (join_content (suppress_rows None gss))).
Proof.
  unfold render_image. rewrite image_content_of_eq.
  destruct (traverse (traverse glyph) (pixel_rows img)); reflexivity.
Qed.

Lemma render_image_unoptimized_eq (img : Image Z) :
  render_image_unoptimized img
  = (gss ← traverse (traverse glyph) (pixel_rows img);
     mret (join_content gss)).
Proof.
  unfold render_image_unoptimized, range.
  rewrite (render_rows_unoptimized_eq img (height img) 0 [] None eq_refl).
  unfold pixel_rows, range.
  destruct (traverse (traverse glyph) (map (row_pixels img) (seq 0 (height img))));
    reflexivity.
Qed.

Lemma bare_shows_block : shows_block PIXEL.
Proof. intros s. reflexivity. Qed.

Lemma glyph_shows_block (p : Z) (g : string) :
  glyph p = Ok g -> shows_block g.
Proof.
  intros (c & Hc & ->)%glyph_inv s.
  rewrite append_assoc, (proj2 (color_code p c Hc)). reflexivity.
Qed.

Lemma suppress_shows_block (gs : list string) :
  Forall shows_block gs ->
  forall prev : option string, Forall shows_block (suppress prev gs).
Proof.
  induction 1 as [|g gs Hg _ IH]; intros prev; simpl; constructor.
  - destruct (decide _); [apply bare_shows_block | exact Hg].
  - apply IH.
Qed.

Lemma traverse_Forall {A B : Type} (f : A -> result B) (P : B -> Prop)
    (l : list A) (bs : list B) :
  (forall (a : A) (b : B), f a = Ok b -> P b) ->
  traverse f l = Ok bs -> Forall P bs.
Proof.
  intros HP H. apply Forall_lookup. intros k b Hk.
  destruct (traverse_lookup f l bs H) as [_ Hall].
  destruct (Hall k b Hk) as (a & _ & Hfa). exact (HP a b Hfa).
Qed.

Lemma concat_empty_cons (x : string) (xs : list string) :
  String.concat "" (x :: xs) = x +:+ String.concat "" xs.
Proof. destruct xs; simpl; [by rewrite append_nil_r | reflexivity]. Qed.

Lemma strip_row (row : list string) :
  Forall shows_block row ->
  forall s : string,
    strip_from false (String.concat "" row +:+ s)
    = blocks (length row) +:+ strip_from false s.
Proof.
  induction 1 as [|cell row Hcell _ IH]; intros s; [reflexivity|].
  rewrite concat_empty_cons, append_assoc, Hcell, IH.
  cbn [length blocks]. rewrite append_assoc. reflexivity.
Qed.

Lemma strip_rows (rows : list (list string)) :
  Forall (Forall shows_block) rows ->
  forall s : string,
    strip_from false
      (String.concat NL (map (String.concat "") rows) +:+ s)
    = String.concat NL (map (fun row => blocks (length row)) rows)
      +:+ strip_from false s.
Proof.
  induction 1 as [|row rows Hrow Hrows IH]; intros s; [reflexivity|].
  destruct rows as [|row' rows].
  - cbn [map String.concat]. apply strip_row, Hrow.
  - change (String.concat NL (map (String.concat "") (row :: row' :: rows)))
      with (String.concat "" row +:+ NL
            +:+ String.concat NL (map (String.concat "") (row' :: rows))).
    change (String.concat NL
              (map (fun r => blocks (length r)) (row :: row' :: rows)))
      with (blocks (length row) +:+ NL
            +:+ String.concat NL
                  (map (fun r => blocks (length r)) (row' :: rows))).
    rewrite !append_assoc, (strip_row row Hrow).
    change (strip_from false (NL +:+ ?x)) with (NL +:+ strip_from false x).
    rewrite IH. reflexivity.
Qed.

Lemma strip_join_content (rows : list (list string)) :
  Forall (Forall shows_block) rows ->
  strip_styling (join_content rows)
  = String.concat NL (map (fun row => blocks (length row)) rows).
Proof.
  intros H. unfold strip_styling, join_content.
  rewrite (strip_rows rows H).
  change (strip_from false Style.RESET_ALL) with "".
  apply append_nil_r.
Qed.

Lemma map_replicate {A B : Type} (f : A -> B) (n : nat) (a : A) :
  map f (replicate n a) = replicate n (f a).
Proof. induction n as [|n IH]; [reflexivity|]. simpl. by rewrite IH. Qed.

Lemma map_length_suppress_rows (gss : list (list string)) :
  forall prev : option string,
    map length (suppress_rows prev gss) = map length gss.
Proof.
  induction gss as [|gs gss IH]; intros prev; [reflexivity|].
  simpl. rewrite length_suppress, IH. reflexivity.
Qed.

Lemma suppress_rows_shows_block (gss : list (list string)) :
  Forall (Forall shows_block) gss ->
  forall prev : option string,
    Forall (Forall shows_block) (suppress_rows prev gss).
Proof.
  induction 1 as [|gs gss Hgs _ IH]; intros prev; simpl; constructor.
  - apply suppress_shows_block, Hgs.
  - apply IH.
Qed.

Lemma glyph_rows_shape (img : Image Z) (gss : list (list string)) :
  traverse (traverse glyph) (pixel_rows img) = Ok gss ->
  Forall (Forall shows_block) gss
  /\ map length gss = replicate (height img) (width img).
Proof.
  intros H. split.
  - apply (traverse_Forall _ _ _ _ (fun row gs Hrow =>
      traverse_Forall glyph shows_block row gs glyph_shows_block Hrow) H).
  - destruct (traverse_lookup _ _ _ H) as [Hlen Hall].
    apply list_eq. intros k.
    rewrite list_lookup_fmap.
    unfold pixel_rows, range in Hlen. rewrite length_map, length_seq in Hlen.
    destruct (gss !! k) as [gs|] eqn:Hgs; simpl.
    + destruct (Hall k gs Hgs) as (row & Hrow & Hgl).
      unfold pixel_rows in Hrow. rewrite list_lookup_fmap in Hrow.
      destruct (range (height img) !! k) as [y|] eqn:Hy; [|discriminate].
      injection Hrow as <-.
      destruct (traverse_lookup _ _ _ Hgl) as [Hl _]. rewrite Hl.
      unfold row_pixels, range. rewrite length_map, length_seq.
      symmetry. apply lookup_replicate_2.
      apply lookup_lt_Some in Hgs. lia.
    + symmetry. apply lookup_replicate_None.
      apply lookup_ge_None in Hgs. lia.
Qed.

(** C6. Rendering a pixel grid with the run-length optimization and
    rendering it with every glyph fully styled fail together or give
    strings that are equal once the styling is stripped; what remains is
    the grid's rows of [width] blocks each, one row per line. *)
Theorem optimization_invisible (img : Image Z) :
  strip_styling <$> render_image img
  = strip_styling <$> render_image_unoptimized img
  /\ forall s : string,
       render_image img = Ok s ->
       strip_styling s
       = String.concat NL (replicate (height img) (blocks (width img))).
Proof.
  rewrite render_image_eq, render_image_unoptimized_eq.
  destruct (traverse (traverse glyph) (pixel_rows img)) as [gss|e] eqn:Hgss.
  - destruct (glyph_rows_shape img gss Hgss) as [Hblocks Hshape].
    assert (Hopt : strip_styling (join_content (suppress_rows None gss))
                   = String.concat NL
                       (replicate (height img) (blocks (width img)))).
    { rewrite strip_join_content by (apply suppress_rows_shows_block, Hblocks).
      rewrite <- (map_map length blocks), map_length_suppress_rows, Hshape.
      rewrite map_replicate. reflexivity. }
    split.
    + cbn [mbind result_bind mret result_ret fmap result_fmap].
      rewrite Hopt, strip_join_content by exact Hblocks.
      rewrite <- (map_map length blocks), Hshape, map_replicate.
      reflexivity.
    + intros s Hs. cbn [mbind result_bind mret result_ret] in Hs.
      injection Hs as <-. exact Hopt.
  - split; [reflexivity | intros s Hs; discriminate].
Qed.

Lemma concat_cons_split (sep x : string) (xs : list string) :
  exists rest : string, String.concat sep (x :: xs) = x +:+ rest.
Proof.
  destruct xs as [|x' xs].
  - exists "". simpl. by rewrite append_nil_r.
  - eexists. reflexivity.
Qed.

(** The first cell of a rendered grid is the fully-styled glyph of its
    top-left pixel, whatever was rendered before. *)
Lemma render_image_first_glyph (img : Image Z) (s : string) :
  render_image img = Ok s ->
  (0 < width img)%nat -> (0 < height img)%nat ->
  exists c rest : string,
    color (getpixel img 0 0) = Ok c
    /\ s = c +:+ PIXEL +:+ rest
    /\ forall rest' : string, s <> PIXEL +:+ rest'.
Proof.
  intros Hs Hw Hh. rewrite render_image_eq in Hs.
  unfold pixel_rows, row_pixels, range in Hs.
  destruct (height img) as [|h]; [lia|].
  destruct (width img) as [|w]; [lia|].
  cbn [seq map traverse] in Hs.
  destruct (glyph (getpixel img 0 0)) as [g|e] eqn:Hg; [|discriminate].
  destruct (traverse glyph _) as [gs|e]; [|discriminate].
  destruct (traverse (traverse glyph) _) as [gss|e]; [|discriminate].
  cbn [mbind result_bind mret result_ret suppress_rows suppress] in Hs.
  rewrite decide_False in Hs by discriminate.
  injection Hs as <-.
  apply glyph_inv in Hg as (c & Hc & ->).
  unfold join_content. cbn [map].
  match goal with
  | |- context [String.concat "" (?x :: ?xs)] =>
      destruct (concat_cons_split "" x xs) as [r1 ->]
  end.
  match goal with
  | |- context [String.concat NL (?x :: ?xs)] =>
      destruct (concat_cons_split NL x xs) as [r2 ->]
  end.
  exists c, (r1 +:+ r2 +:+ Style.RESET_ALL).
  split; [exact Hc|]. rewrite !append_assoc. split; [reflexivity|].
  destruct (color_code _ c Hc) as [[c' ->] _]. intros rest'. discriminate.
Qed.

Section PipelineFacts.
Context {Picture : Type}.
Variable convert_RGB : Picture -> Image rgb.
Variable convert_P : Image rgb -> list Z -> Image Z.
Variable resize : Image Z -> Z * Z -> Resample -> result (Image Z).
Variable terminal : Z * Z.
Variable ImageSequence_Iterator : Picture -> list Picture.
Variable info : Picture -> gmap string Z.

Local Abbreviation image_to_str' :=
  (image_to_str convert_RGB convert_P resize terminal).
Local Abbreviation init_step' :=
  (init_step convert_RGB convert_P resize terminal info).
Local Abbreviation TerminalImage_init' :=
  (TerminalImage_init convert_RGB convert_P resize terminal
     ImageSequence_Iterator info).
Local Abbreviation frame_duration' := (frame_duration info).

(** C7. [image_to_str] quantizes the decoded frame (conversion to RGB,
    then to palette indices against [PALETTE_DATA]) before it resizes:
    the resize step receives the palette-index image and the size
    (columns - 2, lines - 2), and the loops render what the resize step
    returns. *)
Theorem pipeline_order (image : Picture) :
  image_to_str' image
  = (resized ← resize (convert_P (convert_RGB image) PALETTE_DATA)
                 (fst terminal - 2, snd terminal - 2) BILINEAR;
     render_image resized).
Proof.
  unfold image_to_str, get_terminal_size, compress.
  destruct terminal as [columns lines]. reflexivity.
Qed.

Lemma init_loop (pics : list Picture) :
  forall self : TerminalImage,
    for_each pics init_step' self
    = (strs ← traverse image_to_str' pics;
       mret {| frames := frames self ++ strs;
               durations := durations self ++ map frame_duration' pics |}).
Proof.
  induction pics as [|pic pics IH]; intros self.
  - simpl. rewrite !app_nil_r. destruct self; reflexivity.
  - cbn [for_each traverse map]. unfold init_step at 1.
    destruct (image_to_str' pic) as [str|e]; [|reflexivity].
    cbn [mbind result_bind mret result_ret]. rewrite IH.
    destruct (traverse image_to_str' pics) as [strs|e]; [|reflexivity].
    cbn [mbind result_bind mret result_ret frames durations].
    rewrite <- !app_assoc. reflexivity.
Qed.

(** [TerminalImage(image)] renders every frame on its own and records
    its duration. *)
Lemma TerminalImage_init_eq (image : Picture) :
  TerminalImage_init' image
  = (strs ← traverse image_to_str' (ImageSequence_Iterator image);
     mret {| frames := strs;
             durations := map frame_duration'
                            (ImageSequence_Iterator image) |}).
Proof. unfold TerminalImage_init. apply init_loop. Qed.

Lemma TerminalImage_init_inv (image : Picture) (self : TerminalImage) :
  TerminalImage_init' image = Ok self ->
  traverse image_to_str' (ImageSequence_Iterator image) = Ok (frames self)
  /\ durations self = map frame_duration' (ImageSequence_Iterator image).
Proof.
  rewrite TerminalImage_init_eq.
  destruct (traverse image_to_str' _) as [strs|e]; [|discriminate].
  intros H. injection H as <-. split; reflexivity.
Qed.

(** The invariant the player relies on: one duration per frame. *)
Lemma TerminalImage_init_lengths (image : Picture) (self : TerminalImage) :
  TerminalImage_init' image = Ok self ->
  length (durations self) = length (frames self).
Proof.
  intros [Hf Hd]%TerminalImage_init_inv.
  destruct (traverse_lookup _ _ _ Hf) as [Hlen _].
  rewrite Hd, length_map, Hlen. reflexivity.
Qed.

(** C8. The duration recorded for a frame is its [duration] metadata,
    in milliseconds, divided by 1000 when the frame has that metadata,
    and 0.2 seconds when it has none. *)
Theorem recorded_duration (image : Picture) (self : TerminalImage)
    (k : nat) (frame : Picture) :
  TerminalImage_init' image = Ok self ->
  ImageSequence_Iterator image !! k = Some frame ->
  exists d : Q,
    durations self !! k = Some d
    /\ (forall ms : Z,
          info frame !! "duration" = Some ms ->
          d = Qdiv (inject_Z ms) (inject_Z 1000))
    /\ (info frame !! "duration" = None -> Qeq d (2 # 10)).
Proof.
  intros [_ Hd]%TerminalImage_init_inv Hk.
  exists (frame_duration' frame). rewrite Hd. split.
  - rewrite list_lookup_fmap, Hk. reflexivity.
  - unfold frame_duration. split.
    + intros ms ->. reflexivity.
    + intros ->. reflexivity.
Qed.

(** C10. Every frame string recorded by [TerminalImage(image)] is the
    rendering of its own frame, started afresh: when the resized frame
    has at least one pixel, the string begins with the color code of the
    top-left pixel followed by the block, and so never with a bare
    block, whatever the frame before it ended with. *)
Theorem first_glyph_styled (image : Picture) (self : TerminalImage)
    (k : nat) (s : string) :
  TerminalImage_init' image = Ok self ->
  frames self !! k = Some s ->
  exists (frame : Picture) (resized : Image Z),
    ImageSequence_Iterator image !! k = Some frame
    /\ resize (convert_P (convert_RGB frame) PALETTE_DATA)
         (fst terminal - 2, snd terminal - 2) BILINEAR = Ok resized
    /\ render_image resized = Ok s
    /\ ((0 < width resized)%nat -> (0 < height resized)%nat ->
        exists c rest : string,
          color (getpixel resized 0 0) = Ok c
          /\ s = c +:+ PIXEL +:+ rest
          /\ forall rest' : string, s <> PIXEL +:+ rest').
Proof.
  intros [Hf _]%TerminalImage_init_inv Hk.
  destruct (traverse_lookup _ _ _ Hf) as [_ Hall].
  destruct (Hall k s Hk) as (frame & Hframe & Hstr).
  unfold image_to_str, get_terminal_size, compress in Hstr.
  destruct terminal as [columns lines]. cbn [fst snd].
  destruct (resize _ _ _) as [resized|e] eqn:Hres; [|discriminate].
  cbn [mbind result_bind] in Hstr.
  exists frame, resized. repeat split; try assumption.
  apply render_image_first_glyph. exact Hstr.
Qed.
End PipelineFacts.

Lemma recorded_duration_witness :
  exists d : Q,
    durations {| frames := [join_content grid22_content;
                            join_content grid22_content];
                 durations := [Qdiv (inject_Z 40) (inject_Z 1000);
                               Qdiv (inject_Z 200) (inject_Z 1000)] |}
      !! 1%nat = Some d
    /\ (forall ms : Z,
          sample_info [(grid22, ∅)] !! "duration" = Some ms ->
          d = Qdiv (inject_Z ms) (inject_Z 1000))
    /\ (sample_info [(grid22, ∅)] !! "duration" = None -> Qeq d (2 # 10)).
Proof.
  apply (recorded_duration sample_convert_RGB sample_convert_P sample_resize
           (80, 24) sample_Iterator sample_info sample_gif
           {| frames := [join_content grid22_content;
                         join_content grid22_content];
              durations := [Qdiv (inject_Z 40) (inject_Z 1000);
                            Qdiv (inject_Z 200) (inject_Z 1000)] |}
           1 [(grid22, ∅)]);
    vm_compute; reflexivity.
Defined.

Lemma first_glyph_styled_witness :
  exists (frame : sample_picture) (resized : Image Z),
    sample_Iterator sample_gif !! 1%nat = Some frame
    /\ sample_resize (sample_convert_P (sample_convert_RGB frame) PALETTE_DATA)
         (fst (80, 24) - 2, snd (80, 24) - 2) BILINEAR = Ok resized
    /\ render_image resized = Ok (join_content grid22_content)
    /\ ((0 < width resized)%nat -> (0 < height resized)%nat ->
        exists c rest : string,
          color (getpixel resized 0 0) = Ok c
          /\ join_content grid22_content = c +:+ PIXEL +:+ rest
          /\ forall rest' : string,
               join_content grid22_content <> PIXEL +:+ rest').
Proof.
  apply (first_glyph_styled sample_convert_RGB sample_convert_P sample_resize
           (80, 24) sample_Iterator sample_info sample_gif
           {| frames := [join_content grid22_content;
                         join_content grid22_content];
              durations := [Qdiv (inject_Z 40) (inject_Z 1000);
                            Qdiv (inject_Z 200) (inject_Z 1000)] |}
           1 (join_content grid22_content));
    vm_compute; reflexivity.
Defined.

(** ** Loader *)

Section LoaderFacts.
Context {Picture : Type}.
Variable convert_RGB : Picture -> Image rgb.
Variable convert_P : Image rgb -> list Z -> Image Z.
Variable resize : Image Z -> Z * Z -> Resample -> result (Image Z).
Variable terminal : Z * Z.
Variable ImageSequence_Iterator : Picture -> list Picture.
Variable info : Picture -> gmap string Z.
Variable decode : string -> result Picture.
Variable run_process :
  gmap string string -> list string -> result (Z * gmap string string).
Variable refuses : gmap string string -> string -> option refusal.
Variable abspath : string -> string.
Variable PALETTE_PATH : string.

Local Abbreviation open_directly' :=
  (open_directly convert_RGB convert_P resize terminal
     ImageSequence_Iterator info decode).
Local Abbreviation from_path' :=
  (from_path convert_RGB convert_P resize terminal ImageSequence_Iterator
     info decode run_process refuses abspath PALETTE_PATH).

Local Abbreviation open_transcoded' :=
  (open_transcoded convert_RGB convert_P resize terminal
     ImageSequence_Iterator info decode run_process PALETTE_PATH).
Local Abbreviation os_remove' := (os_remove refuses).

Lemma os_remove_absent (fs : gmap string string) (path : string) :
  refuses fs path = None -> snd (os_remove' fs path) !! path = None.
Proof.
  intros Hfree. unfold os_remove. rewrite Hfree.
  destruct (fs !! path) eqn:H; simpl.
  - apply lookup_delete_eq.
  - exact H.
Qed.

(** C9, as the code has it. When the direct attempt to open [path] fails
    with an [OSError], so that [from_path] takes the transcoding
    fallback: if the removal of [abspath(path) + ".temp.gif"] is not
    refused, no file exists at that path once [from_path] is over,
    whether it returned an image or raised; if it is refused, [from_path]
    raises the error of [os.remove] and the file system stays as the
    fallback left it. *)
Theorem from_path_removes_temp (fs : gmap string string) (path : string)
    (e : exn) :
  open_directly' fs path = Raise e ->
  is_OSError e = true ->
  let out_path := abspath path +:+ ".temp.gif" in
  let fs1 := snd (open_transcoded' fs (abspath path) out_path) in
  (refuses fs1 out_path = None ->
   snd (from_path' fs path) !! out_path = None)
  /\ (forall r : refusal,
        refuses fs1 out_path = Some r ->
        from_path' fs path = (Raise (refusal_error r), fs1)).
Proof.
  intros Hopen He out_path fs1. subst out_path fs1.
  unfold from_path. rewrite Hopen, He.
  destruct (open_transcoded' fs (abspath path) (abspath path +:+ ".temp.gif"))
    as [res fs1]. cbn [snd]. split.
  - intros Hfree.
    pose proof (os_remove_absent fs1 (abspath path +:+ ".temp.gif") Hfree)
      as H.
    destruct (os_remove' fs1 (abspath path +:+ ".temp.gif"))
      as [[[]|e'] fs2]; [exact H|].
    destruct e'; exact H.
  - intros r Hr. unfold os_remove. rewrite Hr. destruct r; reflexivity.
Qed.
End LoaderFacts.

Lemma from_path_removes_temp_witness :
  snd (sample_from_path sample_fs "broken.mp4")
    !! (sample_abspath "broken.mp4" +:+ ".temp.gif") = None
  /\ from_path sample_convert_RGB sample_convert_P sample_resize (80, 24)
       sample_Iterator sample_info sample_decode sample_ffmpeg_fails
       sample_refuses_directory sample_abspath
       "/opt/imagedisplay/palette.png" sample_dir_fs "broken.mp4"
     = (Raise (refusal_error is_a_directory), sample_dir_fs).
Proof.
  split.
  - apply (proj1 (from_path_removes_temp sample_convert_RGB sample_convert_P
                    sample_resize (80, 24) sample_Iterator sample_info
                    sample_decode sample_run_process sample_never_refuses
                    sample_abspath "/opt/imagedisplay/palette.png"
                    sample_fs "broken.mp4"
                    (OSError "cannot identify image file")
                    ltac:(vm_compute; reflexivity) eq_refl)).
    reflexivity.
  - apply (proj2 (from_path_removes_temp sample_convert_RGB sample_convert_P
                    sample_resize (80, 24) sample_Iterator sample_info
                    sample_decode sample_ffmpeg_fails
                    sample_refuses_directory sample_abspath
                    "/opt/imagedisplay/palette.png"
                    sample_dir_fs "broken.mp4"
                    (OSError "cannot identify image file")
                    ltac:(vm_compute; reflexivity) eq_refl)
             is_a_directory).
    vm_compute. reflexivity.
Defined.

(** C9 as stated fails. With a directory at the temporary path, the
    transcoder exits with 1, [os.remove] raises [IsADirectoryError] in
    the [finally] block, [from_path] raises that error, and the entry at
    the temporary path is still there. *)
Lemma from_path_directory_stays :
  open_directly sample_convert_RGB sample_convert_P sample_resize (80, 24)
    sample_Iterator sample_info sample_decode sample_dir_fs "broken.mp4"
  = Raise (OSError "cannot identify image file")
  /\ from_path sample_convert_RGB sample_convert_P sample_resize (80, 24)
       sample_Iterator sample_info sample_decode sample_ffmpeg_fails
       sample_refuses_directory sample_abspath
       "/opt/imagedisplay/palette.png" sample_dir_fs "broken.mp4"
     = (Raise IsADirectoryError, sample_dir_fs)
  /\ sample_dir_fs !! (sample_abspath "broken.mp4" +:+ ".temp.gif")
     <> None.
Proof.
  split; [vm_compute; reflexivity|].
  split; [vm_compute; reflexivity|].
  vm_compute. discriminate.
Qed.

(** The two outcomes of the fallback on the sample host: the transcoded
    clip is loaded, the broken one raises; the temporary file is gone in
    both. *)
Example from_path_sample_outcomes :
  fst (sample_from_path sample_fs "clip.mp4")
  = sample_TerminalImage_init sample_gif
  /\ snd (sample_from_path sample_fs "clip.mp4") = sample_fs
  /\ sample_from_path sample_fs "broken.mp4"
     = (Raise (OSError "ffmpeg error: exit with 1"), sample_fs).
Proof. repeat split; vm_compute; reflexivity. Qed.

Lemma optimization_invisible_witness :
  strip_styling <$> render_image grid22
  = strip_styling <$> render_image_unoptimized grid22
  /\ strip_styling (join_content grid22_content)
     = String.concat NL (replicate (height grid22) (blocks (width grid22))).
Proof.
  destruct (optimization_invisible grid22) as [Hsame Htext].
  split; [exact Hsame|].
  apply (Htext (join_content grid22_content)). vm_compute. reflexivity.
Defined.

(** * Further properties *)

(** ** Indexing and the color table *)

Lemma py_index_in_range {A : Type} (l : list A) (i : Z) :
  - Z.of_nat (length l) <= i < Z.of_nat (length l) ->
  exists a : A, py_index l i = Ok a.
Proof.
  intros Hi. unfold py_index.
  destruct (Z.ltb_spec i 0) as [Hneg|Hpos].
  - destruct (Z.ltb_spec (i + Z.of_nat (length l)) 0) as [?|_]; [lia|].
    destruct (lookup_lt_is_Some_2 l (Z.to_nat (i + Z.of_nat (length l)))
                ltac:(lia)) as [a Ha].
    exists a. rewrite Ha. reflexivity.
  - destruct (Z.ltb_spec i 0) as [?|_]; [lia|].
    destruct (lookup_lt_is_Some_2 l (Z.to_nat i) ltac:(lia)) as [a Ha].
    exists a. rewrite Ha. reflexivity.
Qed.

Lemma py_index_out_of_range {A : Type} (l : list A) (i : Z) :
  i < - Z.of_nat (length l) \/ Z.of_nat (length l) <= i ->
  py_index l i = Raise IndexError.
Proof.
  intros Hi. unfold py_index.
  destruct (Z.ltb_spec i 0) as [Hneg|Hpos].
  - destruct (Z.ltb_spec (i + Z.of_nat (length l)) 0) as [_|?];
      [reflexivity | lia].
  - destruct (Z.ltb_spec i 0) as [?|_]; [lia|].
    rewrite (lookup_ge_None_2 l (Z.to_nat i)) by lia. reflexivity.
Qed.

Lemma py_index_raises {A : Type} (l : list A) (i : Z) (e : exn) :
  py_index l i = Raise e -> e = IndexError.
Proof.
  unfold py_index. destruct (_ <? 0); [congruence|].
  destruct (l !! _); congruence.
Qed.

Lemma py_index_negative {A : Type} (l : list A) (i : Z) :
  - Z.of_nat (length l) <= i < 0 ->
  py_index l i = py_index l (i + Z.of_nat (length l)).
Proof.
  intros Hi. unfold py_index.
  rewrite (proj2 (Z.ltb_lt i 0)) by lia.
  rewrite !(proj2 (Z.ltb_ge (i + Z.of_nat (length l)) 0)) by lia.
  reflexivity.
Qed.

(** [color] answers for the indices from -24 to 23 and raises
    [IndexError] for every other index. *)
Theorem color_bounds (i : Z) :
  (-24 <= i < 24 -> exists c : string, color i = Ok c)
  /\ (i < -24 \/ 24 <= i -> color i = Raise IndexError).
Proof.
  unfold color. split; intros Hi.
  - destruct (py_index_in_range COLORS i Hi) as [entry ->].
    eexists. reflexivity.
  - rewrite (py_index_out_of_range COLORS i Hi). reflexivity.
Qed.

Lemma color_bounds_witness :
  (exists c : string, color 23 = Ok c) /\ color 24 = Raise IndexError.
Proof.
  split.
  - apply (proj1 (color_bounds 23)). lia.
  - apply (proj2 (color_bounds 24)). lia.
Defined.

(** A negative index from -24 to -1 does not fail: it counts from the end
    of the table, so [color(i)] is [color(i + 24)]. *)
Theorem color_negative_index (i : Z) :
  -24 <= i < 0 -> color i = color (i + 24).
Proof.
  intros Hi. unfold color.
  rewrite (py_index_negative COLORS i Hi). reflexivity.
Qed.

Lemma color_negative_index_witness : color (-1) = color (-1 + 24).
Proof. apply (color_negative_index (-1)). lia. Defined.

Lemma color_raises (p : Z) (e : exn) : color p = Raise e -> e = IndexError.
Proof.
  unfold color. destruct (py_index COLORS p) as [entry|e'] eqn:H;
    [discriminate|].
  intros H'. injection H' as <-. exact (py_index_raises _ _ _ H).
Qed.

Lemma color_Ok_range (p : Z) (c : string) : color p = Ok c -> -24 <= p < 24.
Proof.
  intros H. destruct (Z_lt_ge_dec p (-24)) as [Hlo|Hlo].
  - rewrite (proj2 (color_bounds p)) in H by lia. discriminate.
  - destruct (Z_lt_ge_dec p 24) as [Hhi|Hhi]; [lia|].
    rewrite (proj2 (color_bounds p)) in H by lia. discriminate.
Qed.

Lemma colors_distinct :
  forallb (fun a =>
    forallb (fun b =>
      implb (bool_decide (color (Z.of_nat a) = color (Z.of_nat b)))
            (a =? b)%nat)
      (seq 0 24))
    (seq 0 24) = true.
Proof. vm_compute. reflexivity. Qed.

Lemma glyphs_distinct :
  forallb (fun a =>
    forallb (fun b =>
      implb (bool_decide (glyph (Z.of_nat a) = glyph (Z.of_nat b)))
            (a =? b)%nat)
      (seq 0 24))
    (seq 0 24) = true.
Proof. vm_compute. reflexivity. Qed.

Lemma distinct_on_table (f : Z -> result string) (i j : Z) :
  forallb (fun a =>
    forallb (fun b =>
      implb (bool_decide (f (Z.of_nat a) = f (Z.of_nat b))) (a =? b)%nat)
      (seq 0 24))
    (seq 0 24) = true ->
  0 <= i < 24 -> 0 <= j < 24 -> f i = f j -> i = j.
Proof.
  intros H Hi Hj Heq.
  rewrite forallb_forall in H.
  specialize (H (Z.to_nat i) ltac:(apply in_seq; lia)).
  rewrite forallb_forall in H.
  specialize (H (Z.to_nat j) ltac:(apply in_seq; lia)).
  rewrite !Z2Nat.id in H by lia.
  rewrite bool_decide_eq_true_2 in H by exact Heq.
  simpl in H. apply Nat.eqb_eq in H. lia.
Qed.

(** Two different palette indices of 0..23 never share a display code. *)
Theorem color_injective (i j : Z) :
  0 <= i < 24 -> 0 <= j < 24 -> i <> j -> color i <> color j.
Proof.
  intros Hi Hj Hne Heq.
  exact (Hne (distinct_on_table color i j colors_distinct Hi Hj Heq)).
Qed.

Lemma color_injective_witness : color 3 <> color 4.
Proof. apply (color_injective 3 4); lia. Defined.

(** ** More on the renderer *)

Lemma image_content_cells (img : Image Z) (content : list (list string)) :
  image_content_of img = Ok content ->
  exists gs : list string,
    traverse glyph (pixel_stream img) = Ok gs
    /\ concat content = suppress None gs.
Proof.
  rewrite image_content_of_eq.
  destruct (traverse (traverse glyph) (pixel_rows img)) as [gss|e] eqn:Hgss;
    [|discriminate].
  intros H. injection H as <-. exists (concat gss). split.
  - apply traverse_concat, Hgss.
  - apply concat_suppress_rows.
Qed.

Lemma glyph_Ok_range (p : Z) (g : string) : glyph p = Ok g -> -24 <= p < 24.
Proof. intros (c & Hc & _)%glyph_inv. exact (color_Ok_range p c Hc). Qed.

(** When the pixels are palette indices as [getpixel] returns them (not
    negative), the cell of a pixel is the bare block exactly when the
    pixel before it in row-major order has the same index. *)
Theorem run_length_by_index (img : Image Z) (content : list (list string))
    (k : nat) (cell : string) :
  image_content_of img = Ok content ->
  Forall (fun p => 0 <= p) (pixel_stream img) ->
  concat content !! k = Some cell ->
  exists p : Z,
    pixel_stream img !! k = Some p
    /\ (cell = PIXEL <->
        exists k' : nat, k = S k' /\ pixel_stream img !! k' = Some p).
Proof.
  intros (gs & Hgs & Hcells)%image_content_cells Hpos Hk.
  rewrite Hcells in Hk.
  destruct (traverse_lookup _ _ _ Hgs) as [Hlen Hall].
  destruct (suppress_lookup _ _ _ _ Hk) as (g & Hg & Hcell).
  destruct (Hall k g Hg) as (p & Hp & Hpg).
  assert (Hvalid : forall (n : nat) (q : Z) (h : string),
            pixel_stream img !! n = Some q -> glyph q = Ok h -> 0 <= q < 24).
  { intros n q h Hq Hqh. pose proof (glyph_Ok_range q h Hqh).
    pose proof (proj1 (Forall_lookup _ _) Hpos n q Hq). simpl in *. lia. }
  exists p. split; [exact Hp|]. split.
  - intros ->. destruct (decide _) as [Heq|_].
    + destruct k as [|k']; [discriminate|].
      symmetry in Heq. destruct (Hall k' g Heq) as (q & Hq & Hqg).
      exists k'. split; [reflexivity|].
      rewrite Hq. f_equal.
      apply (distinct_on_table glyph q p glyphs_distinct);
        [eapply Hvalid; eassumption .. | congruence].
    + symmetry in Hcell. destruct (glyph_not_bare p g Hpg Hcell).
  - intros (k' & -> & Hq).
    assert (Hk' : (k' < length gs)%nat).
    { rewrite Hlen. apply lookup_lt_Some in Hq. exact Hq. }
    destruct (lookup_lt_is_Some_2 _ _ Hk') as [g' Hg'].
    destruct (Hall k' g' Hg') as (q' & Hq' & Hqg').
    assert (g' = g) by congruence. subst g'.
    rewrite Hg' in Hcell. rewrite decide_True in Hcell by reflexivity.
    exact Hcell.
Qed.

Lemma run_length_by_index_witness :
  exists p : Z,
    pixel_stream grid22 !! 3%nat = Some p
    /\ (PIXEL = PIXEL <->
        exists k' : nat, 3%nat = S k' /\ pixel_stream grid22 !! k' = Some p).
Proof.
  apply (run_length_by_index grid22 grid22_content 3 PIXEL).
  - vm_compute. reflexivity.
  - vm_compute. repeat constructor; discriminate.
  - vm_compute. reflexivity.
Defined.

Lemma elem_of_concat {A : Type} (x : A) (row : list A)
    (rows : list (list A)) :
  x ∈ row -> row ∈ rows -> x ∈ concat rows.
Proof.
  intros Hx. induction rows as [|r rows IH]; intros Hrow.
  - by apply elem_of_nil in Hrow.
  - simpl. apply elem_of_app. apply elem_of_cons in Hrow as [<-|Hrow].
    + by left.
    + right. by apply IH.
Qed.

Lemma traverse_Ok_iff {A B : Type} (f : A -> result B) (l : list A) :
  (exists bs : list B, traverse f l = Ok bs)
  <-> Forall (fun a => exists b : B, f a = Ok b) l.
Proof.
  induction l as [|a l IH]; simpl.
  - split; [constructor | eexists; reflexivity].
  - split.
    + intros [bs H]. destruct (f a) as [b|e] eqn:Hfa; [|discriminate].
      destruct (traverse f l) as [bs'|e]; [|discriminate].
      constructor; [exists b; exact Hfa | apply IH; eexists; reflexivity].
    + intros H. inversion H as [|? ? [b Hb] Hl]; subst.
      apply IH in Hl as [bs Hbs]. rewrite Hb, Hbs. eexists. reflexivity.
Qed.

Lemma traverse_raises {A B : Type} (f : A -> result B) (l : list A)
    (e : exn) :
  traverse f l = Raise e -> exists a : A, a ∈ l /\ f a = Raise e.
Proof.
  induction l as [|a l IH]; simpl; [discriminate|].
  destruct (f a) as [b|e'] eqn:Hfa.
  - destruct (traverse f l) as [bs|e'']; [discriminate|].
    intros H. injection H as ->.
    destruct (IH eq_refl) as (a' & Hin & Ha'). exists a'.
    split; [by apply list_elem_of_further | exact Ha'].
  - intros H. injection H as ->. exists a.
    split; [apply list_elem_of_here | exact Hfa].
Qed.

Lemma render_image_raises (img : Image Z) (e : exn) :
  render_image img = Raise e -> e = IndexError.
Proof.
  rewrite render_image_eq.
  destruct (traverse (traverse glyph) (pixel_rows img)) as [gss|e'] eqn:H;
    [discriminate|].
  intros H'. injection H' as <-.
  destruct (traverse_raises _ _ _ H) as (row & _ & Hrow).
  destruct (traverse_raises _ _ _ Hrow) as (p & _ & Hp).
  unfold glyph in Hp. destruct (color p) as [c|e''] eqn:Hc; [discriminate|].
  injection Hp as <-. exact (color_raises p _ Hc).
Qed.

Lemma glyph_defined (p : Z) :
  (exists g : string, glyph p = Ok g) <-> -24 <= p < 24.
Proof.
  split.
  - intros [g Hg]. exact (glyph_Ok_range p g Hg).
  - intros Hp. destruct (proj1 (color_bounds p) Hp) as [c Hc].
    exists (c +:+ PIXEL). exact (glyph_of_color p c Hc).
Qed.

(** The loops of [image_to_str] succeed exactly when every pixel of the
    grid is an index [color] answers for (-24..23); as soon as one is not,
    they raise [IndexError] and nothing else. *)
Theorem render_image_defined (img : Image Z) :
  ((exists s : string, render_image img = Ok s)
   <-> Forall (fun p => -24 <= p < 24) (pixel_stream img))
  /\ (forall e : exn, render_image img = Raise e -> e = IndexError).
Proof.
  split; [|apply render_image_raises].
  rewrite render_image_eq. split.
  - intros [s Hs].
    destruct (traverse (traverse glyph) (pixel_rows img)) as [gss|e] eqn:H;
      [|discriminate].
    apply traverse_concat in H. fold (pixel_stream img) in H.
    assert (Hall : exists gs, traverse glyph (pixel_stream img) = Ok gs)
      by (eexists; exact H).
    apply traverse_Ok_iff in Hall.
    eapply Forall_impl; [exact Hall|]. intros p. apply glyph_defined.
  - intros Hall.
    assert (Hrows : Forall (fun row => exists gs, traverse glyph row = Ok gs)
                      (pixel_rows img)).
    { apply Forall_forall. intros row Hrow. apply traverse_Ok_iff.
      apply Forall_forall. intros p Hp. apply glyph_defined.
      apply (proj1 (Forall_forall _ _) Hall).
      unfold pixel_stream. exact (elem_of_concat p row _ Hp Hrow). }
    apply traverse_Ok_iff in Hrows as [gss ->].
    eexists. reflexivity.
Qed.

Lemma render_image_defined_witness :
  (exists s : string, render_image grid22 = Ok s)
  /\ render_image
       {| width := 1; height := 1; getpixel := fun _ _ => 24 |}
     = Raise IndexError.
Proof.
  split.
  - apply (proj1 (render_image_defined grid22)).
    vm_compute. repeat constructor; discriminate.
  - destruct (render_image
                {| width := 1; height := 1; getpixel := fun _ _ => 24 |})
      as [s|e] eqn:H.
    + pose proof (proj1 (proj1 (render_image_defined _))
                    (ex_intro _ s H)) as Hall.
      inversion Hall as [|? ? [_ Hlt] _]. vm_compute in Hlt. discriminate.
    + f_equal. exact (proj2 (render_image_defined _) e H).
Defined.

Lemma map_constant {A B : Type} (f : A -> B) (l : list A) (b : B) :
  (forall a : A, a ∈ l -> f a = b) -> map f l = replicate (length l) b.
Proof.
  induction l as [|a l IH]; intros H; [reflexivity|].
  simpl. rewrite (H a) by apply list_elem_of_here.
  rewrite IH; [reflexivity|]. intros a' Ha'. apply H.
  by apply list_elem_of_further.
Qed.

Lemma traverse_replicate {A B : Type} (f : A -> result B) (a : A) (b : B)
    (n : nat) :
  f a = Ok b -> traverse f (replicate n a) = Ok (replicate n b).
Proof.
  intros H. induction n as [|n IH]; [reflexivity|].
  simpl. rewrite H, IH. reflexivity.
Qed.

Lemma carry_same (g : string) (n : nat) :
  carry (Some g) (replicate n g) = Some g.
Proof. induction n as [|n IH]; [reflexivity|]. simpl. exact IH. Qed.

Lemma suppress_same (g : string) (n : nat) :
  suppress (Some g) (replicate n g) = replicate n PIXEL.
Proof.
  induction n as [|n IH]; [reflexivity|].
  simpl. rewrite decide_True by reflexivity. by rewrite IH.
Qed.

Lemma suppress_rows_same (g : string) (n m : nat) :
  suppress_rows (Some g) (replicate m (replicate n g))
  = replicate m (replicate n PIXEL).
Proof.
  induction m as [|m IH]; [reflexivity|].
  simpl. rewrite suppress_same, carry_same, IH. reflexivity.
Qed.

Lemma concat_bare_blocks (n : nat) :
  String.concat "" (replicate n PIXEL) = blocks n.
Proof.
  induction n as [|n IH]; [reflexivity|].
  cbn [replicate]. rewrite concat_empty_cons, IH. reflexivity.
Qed.

Lemma concat_cons_prefix (sep c x : string) (xs : list string) :
  String.concat sep ((c +:+ x) :: xs) = c +:+ String.concat sep (x :: xs).
Proof.
  destruct xs as [|x' xs]; [reflexivity|].
  change (String.concat sep ((c +:+ x) :: x' :: xs))
    with ((c +:+ x) +:+ sep +:+ String.concat sep (x' :: xs)).
  apply append_assoc.
Qed.

Lemma pixel_rows_uniform (img : Image Z) (p : Z) :
  (forall x y : nat,
     (x < width img)%nat -> (y < height img)%nat -> getpixel img x y = p) ->
  pixel_rows img = replicate (height img) (replicate (width img) p).
Proof.
  intros H. unfold pixel_rows, range.
  rewrite (map_constant _ _ (replicate (width img) p));
    [by rewrite length_seq|].
  intros y Hy. apply elem_of_seq in Hy.
  unfold row_pixels, range.
  rewrite (map_constant _ _ p); [by rewrite length_seq|].
  intros x Hx. apply elem_of_seq in Hx. apply H; lia.
Qed.

(** A grid of one color is rendered with a single color code: the code
    of that color, then nothing but bare blocks and line breaks, then the
    reset sequence. *)
Theorem uniform_grid_rendering (img : Image Z) (p : Z) (c : string) :
  color p = Ok c ->
  (forall x y : nat,
     (x < width img)%nat -> (y < height img)%nat -> getpixel img x y = p) ->
  (0 < width img)%nat -> (0 < height img)%nat ->
  render_image img
  = Ok (c +:+ String.concat NL (replicate (height img) (blocks (width img)))
        +:+ Style.RESET_ALL).
Proof.
  intros Hc Hp Hw Hh. rewrite render_image_eq, (pixel_rows_uniform img p Hp).
  destruct (width img) as [|n]; [lia|].
  destruct (height img) as [|m]; [lia|].
  rewrite (traverse_replicate _ _ (replicate (S n) (c +:+ PIXEL)))
    by (apply traverse_replicate, glyph_of_color, Hc).
  cbn [mbind result_bind mret result_ret]. f_equal.
  unfold join_content.
  assert (Hfirst : suppress None (replicate (S n) (c +:+ PIXEL))
                   = (c +:+ PIXEL) :: replicate n PIXEL).
  { cbn [replicate suppress]. rewrite decide_False by discriminate.
    by rewrite suppress_same. }
  assert (Hcarry : carry None (replicate (S n) (c +:+ PIXEL))
                   = Some (c +:+ PIXEL)) by apply (carry_same _ n).
  set (row := replicate (S n) (c +:+ PIXEL)) in *.
  cbn [replicate suppress_rows map]. rewrite Hfirst, Hcarry. subst row.
  rewrite (suppress_rows_same (c +:+ PIXEL) (S n) m).
  rewrite map_replicate, concat_empty_cons.
  rewrite (concat_bare_blocks (S n)), (concat_bare_blocks n).
  rewrite append_assoc, concat_cons_prefix, append_assoc. reflexivity.
Qed.

Lemma uniform_grid_rendering_witness :
  render_image {| width := 3; height := 2; getpixel := fun _ _ => 7 |}
  = Ok ((Fore.RED +:+ Style.NORMAL)
        +:+ String.concat NL (replicate 2 (blocks 3)) +:+ Style.RESET_ALL).
Proof.
  apply (uniform_grid_rendering
           {| width := 3; height := 2; getpixel := fun _ _ => 7 |} 7
           (Fore.RED +:+ Style.NORMAL)); simpl; try lia; reflexivity.
Defined.

Lemma suppress_rows_empty (m : nat) (prev : option string) :
  map (String.concat "") (suppress_rows prev (replicate m []))
  = replicate m "".
Proof.
  induction m as [|m IH]; [reflexivity|].
  cbn [replicate suppress_rows suppress map carry fold_left].
  rewrite IH. reflexivity.
Qed.

(** A grid without pixels is rendered without any color code and never
    raises: one empty line per row, then the reset sequence. *)
Theorem empty_grid_rendering (img : Image Z) :
  width img = 0%nat \/ height img = 0%nat ->
  render_image img
  = Ok (String.concat NL (replicate (height img) "") +:+ Style.RESET_ALL).
Proof.
  intros Hempty. rewrite render_image_eq.
  assert (Hrows : pixel_rows img = replicate (height img) []).
  { destruct Hempty as [Hw|Hh].
    - rewrite (pixel_rows_uniform img 0) by (intros; lia).
      rewrite Hw. reflexivity.
    - unfold pixel_rows, range. rewrite Hh. reflexivity. }
  rewrite Hrows, (traverse_replicate _ _ []) by reflexivity.
  cbn [mbind result_bind mret result_ret]. f_equal.
  unfold join_content. rewrite suppress_rows_empty. reflexivity.
Qed.

Lemma empty_grid_rendering_witness :
  render_image {| width := 0; height := 3; getpixel := fun _ _ => 99 |}
  = Ok (String.concat NL (replicate 3 "") +:+ Style.RESET_ALL).
Proof.
  apply (empty_grid_rendering
           {| width := 0; height := 3; getpixel := fun _ _ => 99 |}).
  left. reflexivity.
Defined.

(** ** Sizes *)

Lemma py_len_app (a b : string) : py_len (a +:+ b) = (py_len a + py_len b)%nat.
Proof.
  induction a as [|ch a IH]; [reflexivity|].
  change (String ch a +:+ b) with (String ch (a +:+ b)).
  cbn [py_len]. rewrite IH. lia.
Qed.

Lemma sum_list_map_app {A : Type} (f : A -> nat) (l1 l2 : list A) :
  sum_list (map f (l1 ++ l2))
  = (sum_list (map f l1) + sum_list (map f l2))%nat.
Proof. induction l1 as [|a l1 IH]; simpl; [reflexivity | rewrite IH; lia]. Qed.

Lemma py_len_concat_empty (cells : list string) :
  py_len (String.concat "" cells) = sum_list (map py_len cells).
Proof.
  induction cells as [|cell cells IH]; [reflexivity|].
  rewrite concat_empty_cons, py_len_app, IH. reflexivity.
Qed.

Lemma py_len_concat_NL (lines : list string) :
  py_len (String.concat NL lines)
  = (sum_list (map py_len lines) + pred (length lines))%nat.
Proof.
  induction lines as [|line lines IH]; [reflexivity|].
  destruct lines as [|line' lines].
  - simpl. lia.
  - change (String.concat NL (line :: line' :: lines))
      with (line +:+ NL +:+ String.concat NL (line' :: lines)).
    rewrite !py_len_app, IH. simpl. lia.
Qed.

Lemma py_len_rows (rows : list (list string)) :
  sum_list (map py_len (map (String.concat "") rows))
  = sum_list (map py_len (concat rows)).
Proof.
  induction rows as [|row rows IH]; [reflexivity|].
  simpl. rewrite sum_list_map_app, py_len_concat_empty, IH. reflexivity.
Qed.

(** The number of characters of a rendered string: its cells, one line
    break between two rows, and the four characters of the reset
    sequence. *)
Lemma py_len_join_content (rows : list (list string)) :
  py_len (join_content rows)
  = (sum_list (map py_len (concat rows)) + pred (length rows) + 4)%nat.
Proof.
  unfold join_content.
  rewrite py_len_app, py_len_concat_NL, py_len_rows, length_map.
  reflexivity.
Qed.

Lemma COLORS_code_lengths :
  Forall (fun entry : rgb * string => (9 <= py_len (snd entry) <= 10)%nat)
    COLORS.
Proof. repeat constructor; vm_compute; lia. Qed.

Lemma glyph_py_len (p : Z) (g : string) :
  glyph p = Ok g -> (10 <= py_len g <= 11)%nat.
Proof.
  intros (c & Hc & ->)%glyph_inv. rewrite py_len_app.
  change (py_len PIXEL) with 1%nat.
  unfold color, py_index in Hc.
  destruct (_ <? 0); [discriminate|].
  destruct (COLORS !! _) as [entry|] eqn:He; [|discriminate].
  injection Hc as <-.
  pose proof (proj1 (Forall_lookup _ _) COLORS_code_lengths _ _ He).
  simpl in *. lia.
Qed.

Lemma suppress_size (gs : list string) :
  Forall (fun g => (10 <= py_len g <= 11)%nat) gs ->
  forall prev : option string,
    (length gs <= sum_list (map py_len (suppress prev gs))
     <= sum_list (map py_len gs))%nat
    /\ (sum_list (map py_len gs) <= 11 * length gs)%nat.
Proof.
  induction 1 as [|g gs Hg _ IH]; intros prev; [simpl; lia|].
  specialize (IH (Some g)). simpl.
  destruct (decide _); simpl; lia.
Qed.

Lemma length_concat_shape {A : Type} (rows : list (list A)) :
  forall h w : nat,
    map length rows = replicate h w ->
    length rows = h /\ length (concat rows) = (w * h)%nat.
Proof.
  induction rows as [|row rows IH]; intros [|h] w Hshape;
    try discriminate; [split; [reflexivity | simpl; lia]|].
  simpl in Hshape. injection Hshape as Hrow Hrows.
  destruct (IH h w Hrows) as [Hlen Hcells].
  simpl. rewrite length_app, Hlen, Hcells, Hrow. split; [reflexivity | lia].
Qed.

Lemma glyph_rows_sizes (img : Image Z) (gss : list (list string)) :
  traverse (traverse glyph) (pixel_rows img) = Ok gss ->
  Forall (fun g => (10 <= py_len g <= 11)%nat) (concat gss)
  /\ length gss = height img
  /\ length (concat gss) = (width img * height img)%nat.
Proof.
  intros H. split.
  - apply traverse_concat in H.
    exact (traverse_Forall glyph _ _ _ glyph_py_len H).
  - apply glyph_rows_shape in H as [_ Hshape].
    exact (length_concat_shape gss _ _ Hshape).
Qed.

(** A rendered grid of [w] by [h] pixels has at least one character per
    pixel and at most eleven (a color code of ten and the block), plus the
    line breaks between rows and the reset sequence. *)
Theorem rendered_size (img : Image Z) (s : string) :
  render_image img = Ok s ->
  (width img * height img + pred (height img) + 4 <= py_len s
   <= 11 * (width img * height img) + pred (height img) + 4)%nat.
Proof.
  rewrite render_image_eq.
  destruct (traverse (traverse glyph) (pixel_rows img)) as [gss|e] eqn:Hgss;
    [|discriminate].
  intros H. injection H as <-.
  destruct (glyph_rows_sizes img gss Hgss) as (Hcells & Hrows & Hcount).
  rewrite py_len_join_content, concat_suppress_rows.
  assert (Hh : length (suppress_rows None gss) = height img).
  { rewrite <- Hrows, <- (length_map length (suppress_rows None gss)),
      map_length_suppress_rows, length_map. reflexivity. }
  rewrite Hh. pose proof (suppress_size (concat gss) Hcells None). lia.
Qed.

Lemma rendered_size_witness :
  (width grid22 * height grid22 + pred (height grid22) + 4
   <= py_len (join_content grid22_content)
   <= 11 * (width grid22 * height grid22) + pred (height grid22) + 4)%nat.
Proof.
  apply (rendered_size grid22 (join_content grid22_content)).
  vm_compute. reflexivity.
Defined.

(** The run-length optimization never makes the string longer. *)
Theorem optimization_never_longer (img : Image Z) (s s' : string) :
  render_image img = Ok s ->
  render_image_unoptimized img = Ok s' ->
  (py_len s <= py_len s')%nat.
Proof.
  rewrite render_image_eq, render_image_unoptimized_eq.
  destruct (traverse (traverse glyph) (pixel_rows img)) as [gss|e] eqn:Hgss;
    [|discriminate].
  intros H H'. injection H as <-. injection H' as <-.
  destruct (glyph_rows_sizes img gss Hgss) as (Hcells & _ & _).
  rewrite !py_len_join_content, concat_suppress_rows.
  assert (Hh : length (suppress_rows None gss) = length gss).
  { rewrite <- (length_map length (suppress_rows None gss)),
      map_length_suppress_rows, length_map. reflexivity. }
  rewrite Hh. pose proof (suppress_size (concat gss) Hcells None). lia.
Qed.

Lemma optimization_never_longer_witness :
  (py_len (join_content grid22_content)
   <= py_len (join_content
                [[Fore.BLACK +:+ Style.DIM +:+ PIXEL;
                  Fore.WHITE +:+ Style.DIM +:+ PIXEL];
                 [Fore.BLACK +:+ Style.DIM +:+ PIXEL;
                  Fore.BLACK +:+ Style.DIM +:+ PIXEL]]))%nat.
Proof.
  apply (optimization_never_longer grid22); vm_compute; reflexivity.
Defined.

(** ** Frame sequencer *)

Lemma traverse_Raise_iff {A B : Type} (f : A -> result B) (l : list A)
    (e : exn) :
  traverse f l = Raise e
  <-> exists (k : nat) (a : A),
        l !! k = Some a /\ f a = Raise e
        /\ forall (j : nat) (a' : A),
             (j < k)%nat -> l !! j = Some a' -> exists b : B, f a' = Ok b.
Proof.
  induction l as [|a l IH]; simpl.
  - split; [discriminate | intros (k & a & H & _); discriminate].
  - destruct (f a) as [b|e'] eqn:Hfa.
    + transitivity (traverse f l = Raise e).
      { destruct (traverse f l); split; congruence. }
      rewrite IH. split.
      * intros (k & a' & Hk & Ha' & Hbefore).
        exists (S k), a'. repeat split; try assumption.
        intros [|j] a'' Hj Hj'; simpl in Hj'.
        -- injection Hj' as <-. exists b. exact Hfa.
        -- apply (Hbefore j a''); [lia | exact Hj'].
      * intros ([|k] & a' & Hk & Ha' & Hbefore); simpl in Hk.
        -- injection Hk as <-. congruence.
        -- exists k, a'. repeat split; try assumption.
           intros j a'' Hj Hj'. apply (Hbefore (S j) a''); [lia | exact Hj'].
    + split.
      * intros H. injection H as ->. exists 0%nat, a.
        repeat split; [exact Hfa|]. intros j a' Hj. lia.
      * intros ([|k] & a' & Hk & Ha' & Hbefore); simpl in Hk.
        -- injection Hk as <-. congruence.
        -- destruct (Hbefore 0%nat a ltac:(lia) eq_refl) as [b Hb].
           congruence.
Qed.

Section SequencerFacts.
Context {Picture : Type}.
Variable convert_RGB : Picture -> Image rgb.
Variable convert_P : Image rgb -> list Z -> Image Z.
Variable resize : Image Z -> Z * Z -> Resample -> result (Image Z).
Variable terminal : Z * Z.
Variable ImageSequence_Iterator : Picture -> list Picture.
Variable info : Picture -> gmap string Z.

Local Abbreviation image_to_str' :=
  (image_to_str convert_RGB convert_P resize terminal).
Local Abbreviation TerminalImage_init' :=
  (TerminalImage_init convert_RGB convert_P resize terminal
     ImageSequence_Iterator info).
Local Abbreviation frame_duration' := (frame_duration info).

(** A constructed [TerminalImage] has one string and one duration for
    each frame of the decoded image. *)
Theorem frame_count (image : Picture) (self : TerminalImage) :
  TerminalImage_init' image = Ok self ->
  __len__ self = length (ImageSequence_Iterator image)
  /\ length (durations self) = length (ImageSequence_Iterator image).
Proof.
  intros [Hf Hd]%TerminalImage_init_inv.
  destruct (traverse_lookup _ _ _ Hf) as [Hlen _].
  unfold __len__. rewrite Hd, length_map. split; [exact Hlen | reflexivity].
Qed.

(** Construction is all or nothing: it raises exactly when some frame
    cannot be rendered, and then with the exception of the first such
    frame. *)
Theorem init_raises_iff (image : Picture) (e : exn) :
  TerminalImage_init' image = Raise e
  <-> exists (k : nat) (frame : Picture),
        ImageSequence_Iterator image !! k = Some frame
        /\ image_to_str' frame = Raise e
        /\ forall (j : nat) (earlier : Picture),
             (j < k)%nat ->
             ImageSequence_Iterator image !! j = Some earlier ->
             exists s : string, image_to_str' earlier = Ok s.
Proof.
  rewrite TerminalImage_init_eq, <- traverse_Raise_iff.
  destruct (traverse image_to_str' (ImageSequence_Iterator image))
    as [strs|e']; cbn [mbind result_bind mret result_ret].
  - split; discriminate.
  - split; intros H; injection H as ->; reflexivity.
Qed.

(** Every frame string of a constructed image ends with the reset
    sequence, so a frame printed in full leaves the terminal unstyled. *)
Theorem frames_end_with_reset (image : Picture) (self : TerminalImage)
    (k : nat) (s : string) :
  TerminalImage_init' image = Ok self ->
  frames self !! k = Some s ->
  exists body : string, s = body +:+ Style.RESET_ALL.
Proof.
  intros [Hf _]%TerminalImage_init_inv Hk.
  destruct (traverse_lookup _ _ _ Hf) as [_ Hall].
  destruct (Hall k s Hk) as (frame & _ & Hstr).
  unfold image_to_str in Hstr.
  destruct (get_terminal_size terminal) as [w h].
  destruct (resize _ _ _) as [resized|e]; [|discriminate].
  cbn [mbind result_bind] in Hstr. unfold render_image in Hstr.
  destruct (image_content_of resized) as [content|e]; [|discriminate].
  injection Hstr as <-. eexists. reflexivity.
Qed.

(** Durations are never negative when the duration metadata is not. *)
Theorem durations_nonnegative (image : Picture) (self : TerminalImage) :
  TerminalImage_init' image = Ok self ->
  (forall (frame : Picture) (ms : Z),
     frame ∈ ImageSequence_Iterator image ->
     info frame !! "duration" = Some ms -> 0 <= ms) ->
  Forall (fun d => Qle 0 d) (durations self).
Proof.
  intros [_ Hd]%TerminalImage_init_inv Hms. rewrite Hd.
  apply Forall_forall. intros d Hin.
  apply list_elem_of_fmap in Hin as (frame & -> & Hframe).
  unfold frame_duration.
  destruct (info frame !! "duration") as [ms|] eqn:Hinfo; simpl.
  - specialize (Hms frame ms Hframe Hinfo).
    unfold Qle, Qdiv, Qmult, Qinv, inject_Z; simpl. lia.
  - unfold Qle; simpl. lia.
Qed.

(** [str(image)] is the rendering of the first frame; on an image without
    frames it raises [IndexError]. *)
Theorem str_first_frame (image : Picture) (self : TerminalImage) :
  TerminalImage_init' image = Ok self ->
  match ImageSequence_Iterator image with
  | first :: _ => __str__ self = image_to_str' first
  | [] => __str__ self = Raise IndexError
  end.
Proof.
  intros [Hf _]%TerminalImage_init_inv. unfold __str__.
  destruct (ImageSequence_Iterator image) as [|first rest]; simpl in Hf.
  - injection Hf as <-. reflexivity.
  - destruct (image_to_str' first) as [s|e]; [|discriminate].
    destruct (traverse image_to_str' rest) as [ss|e]; [|discriminate].
    injection Hf as <-. reflexivity.
Qed.

(** When [resize] returns images of the size it is asked for, the
    character count of a constructed image is at most, per frame, eleven
    characters for each cell of the drawing area, the line breaks and the
    reset sequence. *)
Theorem chars_bound (image : Picture) (self : TerminalImage) :
  (forall (img resized : Image Z) (size : Z * Z) (mode : Resample),
     resize img size mode = Ok resized ->
     width resized = Z.to_nat (fst size)
     /\ height resized = Z.to_nat (snd size)) ->
  TerminalImage_init' image = Ok self ->
  let w := Z.to_nat (fst terminal - 2) in
  let h := Z.to_nat (snd terminal - 2) in
  (chars self <= __len__ self * (11 * (w * h) + pred h + 4))%nat.
Proof.
  intros Hresize [Hf _]%TerminalImage_init_inv w h.
  unfold chars, __len__.
  destruct (traverse_lookup _ _ _ Hf) as [_ Hall].
  assert (Hframes : Forall (fun s => (py_len s <= 11 * (w * h) + pred h + 4)%nat)
                      (frames self)).
  { apply Forall_lookup. intros k s Hk.
    destruct (Hall k s Hk) as (frame & _ & Hstr).
    unfold image_to_str, get_terminal_size in Hstr.
    destruct terminal as [columns lines].
    destruct (resize _ _ _) as [resized|e] eqn:Hres; [|discriminate].
    cbn [mbind result_bind] in Hstr.
    destruct (Hresize _ _ _ _ Hres) as [Hw Hh].
    pose proof (rendered_size resized s Hstr) as Hsize.
    simpl in Hw, Hh. subst w h. simpl. rewrite Hw, Hh in Hsize. lia. }
  clear Hf Hall. induction Hframes as [|s ss Hs _ IH]; simpl; lia.
Qed.
End SequencerFacts.

Lemma frame_count_witness :
  __len__ {| frames := [join_content grid22_content;
                        join_content grid22_content];
             durations := [Qdiv (inject_Z 40) (inject_Z 1000);
                           Qdiv (inject_Z 200) (inject_Z 1000)] |}
  = length (sample_Iterator sample_gif)
  /\ length [Qdiv (inject_Z 40) (inject_Z 1000);
             Qdiv (inject_Z 200) (inject_Z 1000)]
     = length (sample_Iterator sample_gif).
Proof.
  apply (frame_count sample_convert_RGB sample_convert_P sample_resize
           (80, 24) sample_Iterator sample_info sample_gif).
  vm_compute. reflexivity.
Defined.

Lemma init_raises_iff_witness :
  exists (k : nat) (frame : sample_picture),
    sample_Iterator sample_bad_gif !! k = Some frame
    /\ image_to_str sample_convert_RGB sample_convert_P sample_resize
         (80, 24) frame = Raise IndexError
    /\ forall (j : nat) (earlier : sample_picture),
         (j < k)%nat ->
         sample_Iterator sample_bad_gif !! j = Some earlier ->
         exists s : string,
           image_to_str sample_convert_RGB sample_convert_P sample_resize
             (80, 24) earlier = Ok s.
Proof.
  apply (proj1 (init_raises_iff sample_convert_RGB sample_convert_P
                  sample_resize (80, 24) sample_Iterator sample_info
                  sample_bad_gif IndexError)).
  vm_compute. reflexivity.
Defined.

Lemma frames_end_with_reset_witness :
  exists body : string,
    join_content grid22_content = body +:+ Style.RESET_ALL.
Proof.
  apply (frames_end_with_reset sample_convert_RGB sample_convert_P
           sample_resize (80, 24) sample_Iterator sample_info sample_gif
           {| frames := [join_content grid22_content;
                         join_content grid22_content];
              durations := [Qdiv (inject_Z 40) (inject_Z 1000);
                            Qdiv (inject_Z 200) (inject_Z 1000)] |} 1);
    vm_compute; reflexivity.
Defined.

Lemma sample_gif_metadata (frame : sample_picture) (ms : Z) :
  frame ∈ sample_Iterator sample_gif ->
  sample_info frame !! "duration" = Some ms -> 0 <= ms.
Proof.
  intros Hin. unfold sample_Iterator, sample_gif in Hin. simpl in Hin.
  apply elem_of_cons in Hin as [->|Hin].
  - vm_compute. intros H. injection H as <-. discriminate.
  - apply elem_of_cons in Hin as [->|Hin]; [vm_compute; discriminate|].
    by apply elem_of_nil in Hin.
Qed.

Lemma durations_nonnegative_witness :
  Forall (fun d => Qle 0 d)
    [Qdiv (inject_Z 40) (inject_Z 1000); Qdiv (inject_Z 200) (inject_Z 1000)].
Proof.
  apply (durations_nonnegative sample_convert_RGB sample_convert_P
           sample_resize (80, 24) sample_Iterator sample_info sample_gif
           {| frames := [join_content grid22_content;
                         join_content grid22_content];
              durations := [Qdiv (inject_Z 40) (inject_Z 1000);
                            Qdiv (inject_Z 200) (inject_Z 1000)] |}).
  - vm_compute. reflexivity.
  - exact sample_gif_metadata.
Defined.

Lemma str_first_frame_witness :
  __str__ {| frames := [join_content grid22_content;
                        join_content grid22_content];
             durations := [Qdiv (inject_Z 40) (inject_Z 1000);
                           Qdiv (inject_Z 200) (inject_Z 1000)] |}
  = image_to_str sample_convert_RGB sample_convert_P sample_resize (80, 24)
      [(grid22, {["duration" := 40]})].
Proof.
  apply (str_first_frame sample_convert_RGB sample_convert_P sample_resize
           (80, 24) sample_Iterator sample_info sample_gif).
  vm_compute. reflexivity.
Defined.

Lemma sample_resize_exact_size (img resized : Image Z) (size : Z * Z)
    (mode : Resample) :
  sample_resize_exact img size mode = Ok resized ->
  width resized = Z.to_nat (fst size) /\ height resized = Z.to_nat (snd size).
Proof.
  unfold sample_resize_exact. destruct (_ && _); [|discriminate].
  intros H. injection H as <-. split; reflexivity.
Qed.

Lemma chars_bound_witness :
  (chars sample_small
   <= __len__ sample_small
      * (11 * (Z.to_nat (6 - 2) * Z.to_nat (5 - 2))
         + pred (Z.to_nat (5 - 2)) + 4))%nat.
Proof.
  apply (chars_bound sample_convert_RGB sample_convert_P sample_resize_exact
           (6, 5) sample_Iterator sample_info sample_gif sample_small
           sample_resize_exact_size).
  vm_compute. reflexivity.
Defined.

(** ** More on the player *)

Lemma io_bind_unit (m : io unit) (w : world) :
  (m ≫= fun _ => mret tt) w = m w.
Proof.
  unfold mbind, io_bind, mret, io_ret.
  destruct (m w) as [[[]|e|] w']; reflexivity.
Qed.

Lemma io_bind_ext {A B : Type} (m1 m2 : io A) (k1 k2 : A -> io B)
    (w : world) :
  m1 w = m2 w ->
  (forall (a : A) (w' : world), k1 a w' = k2 a w') ->
  (m1 ≫= k1) w = (m2 ≫= k2) w.
Proof.
  intros Hm Hk. unfold mbind, io_bind. rewrite Hm.
  destruct (m2 w) as [[a|e|] w']; [apply Hk | reflexivity | reflexivity].
Qed.

Lemma for_io_app {A : Type} (xs ys : list A) (f : A -> io unit) :
  forall w : world,
    for_io (xs ++ ys) f w = (for_io xs f ≫= fun _ => for_io ys f) w.
Proof.
  induction xs as [|x xs IH]; intros w; [reflexivity|].
  cbn [app for_io]. unfold mbind, io_bind.
  destruct (f x w) as [[[]|e|] w']; [|reflexivity|reflexivity].
  rewrite IH. reflexivity.
Qed.

Lemma for_io_ext {A : Type} (xs : list A) (f g : A -> io unit) :
  (forall (x : A) (w : world), f x w = g x w) ->
  forall w : world, for_io xs f w = for_io xs g w.
Proof.
  intros Hfg. induction xs as [|x xs IH]; intros w; [reflexivity|].
  cbn [for_io]. apply io_bind_ext; [apply Hfg | intros _ w'; apply IH].
Qed.

Lemma play_frames_run (self : TerminalImage) (fs : list string) :
  forall (k : nat) (w : world),
    (k + length fs <= length (durations self))%nat ->
    for_io (imap (fun i a => ((k + i)%nat, a)) fs) (play_frame self) w
    = run (pass_events fs (drop k (durations self))) w.
Proof.
  induction fs as [|f fs IH]; intros k w Hlen; [reflexivity|].
  simpl in Hlen.
  destruct (lookup_lt_is_Some_2 (durations self) k ltac:(lia)) as [d Hd].
  rewrite (drop_S _ _ _ Hd), imap_cons. cbn [for_io].
  change (pass_events (f :: fs) (d :: drop (S k) (durations self)))
    with ([Sleep d; Print (NL +:+ NL +:+ f)]
          ++ pass_events fs (drop (S k) (durations self))).
  unfold run. rewrite for_io_app. apply io_bind_ext.
  - unfold play_frame. rewrite Nat.add_0_r. unfold list_get. rewrite Hd.
    rewrite lift_Ok_bind. cbn [for_io].
    apply io_bind_ext; [reflexivity|]. intros _ w'.
    symmetry. apply (io_bind_unit (perform (Print (NL +:+ NL +:+ f)))).
  - intros _ w'.
    rewrite (imap_ext _ (fun i a => ((S k + i)%nat, a)))
      by (intros; simpl; f_equal; lia).
    apply IH. lia.
Qed.

Lemma play_run (self : TerminalImage) (fs : list string) (w : world) :
  (length fs <= length (durations self))%nat ->
  play self fs w = run (pass_events fs (durations self)) w.
Proof.
  intros Hlen. unfold play, enumerate.
  apply (play_frames_run self fs 0 w). lia.
Qed.

Lemma passes_run {A : Type} (self : TerminalImage) (fs : list string)
    (xs : list A) :
  (length fs <= length (durations self))%nat ->
  forall w : world,
    for_io xs (fun _ => play self fs) w
    = run (concat (replicate (length xs)
                     (pass_events fs (durations self)))) w.
Proof.
  intros Hlen. induction xs as [|x xs IH]; intros w; [reflexivity|].
  cbn [for_io length replicate concat]. unfold run. rewrite for_io_app.
  apply io_bind_ext; [by apply play_run | intros _ w'; apply IH].
Qed.

Lemma while_True_run (self : TerminalImage) (fs : list string)
    (fuel : nat) :
  (length fs <= length (durations self))%nat ->
  forall w : world,
    while_True fuel (play self fs) w
    = (run (concat (replicate fuel (pass_events fs (durations self))))
       ≫= fun _ => out_of_fuel) w.
Proof.
  intros Hlen. induction fuel as [|fuel IH]; intros w; [reflexivity|].
  cbn [while_True replicate concat]. unfold run.
  unfold mbind at 2, io_bind at 2. rewrite for_io_app.
  unfold mbind, io_bind. rewrite (play_run self fs w Hlen). unfold run.
  destruct (for_io _ perform w) as [[[]|e|] w']; [|reflexivity|reflexivity].
  rewrite IH. reflexivity.
Qed.

Lemma run_cons (ev : event) (evs : list event) (w : world) :
  run (ev :: evs) w
  = match schedule w with
    | Some e :: rest => (Raised e, {| schedule := rest; trace := trace w |})
    | None :: rest =>
        run evs {| schedule := rest; trace := trace w ++ [ev] |}
    | [] => run evs {| schedule := []; trace := trace w ++ [ev] |}
    end.
Proof.
  unfold run. cbn [for_io]. unfold mbind, io_bind, perform.
  destruct (schedule w) as [|[e|] rest]; reflexivity.
Qed.

(** Performing events extends the trace by a prefix of them: all of them
    when nothing fails, those before the failing call otherwise. *)
Lemma run_spec (evs : list event) :
  forall w : world,
    exists n : nat,
      trace (snd (run evs w)) = trace w ++ take n evs
      /\ ((fst (run evs w) = Done tt /\ n = length evs)
          \/ exists e : exn, fst (run evs w) = Raised e).
Proof.
  induction evs as [|ev evs IH]; intros w.
  - exists 0%nat. simpl. rewrite app_nil_r. split; [reflexivity|]. by left.
  - rewrite run_cons. destruct (schedule w) as [|[e|] rest].
    + destruct (IH {| schedule := []; trace := trace w ++ [ev] |})
        as (n & Htrace & Hout).
      exists (S n). rewrite Htrace. cbn [trace take].
      rewrite <- app_assoc. split; [reflexivity|].
      destruct Hout as [[Hdone ->]|Hraised]; [left | right]; auto.
    + exists 0%nat. simpl. rewrite app_nil_r. split; [reflexivity|].
      right. exists e. reflexivity.
    + destruct (IH {| schedule := rest; trace := trace w ++ [ev] |})
        as (n & Htrace & Hout).
      exists (S n). rewrite Htrace. cbn [trace take].
      rewrite <- app_assoc. split; [reflexivity|].
      destruct Hout as [[Hdone ->]|Hraised]; [left | right]; auto.
Qed.

Lemma show_body_run (fuel : nat) (self : TerminalImage) (animated : bool)
    (repeat : Z) :
  (length (frames self) <= length (durations self))%nat ->
  animated = true \/ frames self <> [] ->
  forall w : world,
    show_body fuel self animated repeat w
    = (if repeat <=? -1
       then run (show_events fuel self animated repeat)
            ≫= fun _ => out_of_fuel
       else run (show_events fuel self animated repeat)) w.
Proof.
  intros Hlen Hplayed w. unfold show_body, show_events.
  assert (Hfirst :
    forall k : list string -> io unit,
      ((if animated then mret (frames self)
        else lift (py_index (frames self) 0) ≫= fun frame => mret [frame])
       ≫= k) w
      = k (if animated then frames self else take 1 (frames self)) w).
  { intros k. destruct animated; [reflexivity|].
    destruct Hplayed as [?|Hne]; [discriminate|].
    destruct (frames self) as [|f0 rest]; [contradiction|]. reflexivity. }
  rewrite Hfirst.
  assert (Hshort :
    (length (if animated then frames self else take 1 (frames self))
     <= length (durations self))%nat).
  { destruct animated; [exact Hlen|]. rewrite length_take. lia. }
  destruct (repeat <=? -1).
  - apply while_True_run, Hshort.
  - rewrite (passes_run self _ _ Hshort).
    unfold range. rewrite length_seq. reflexivity.
Qed.

Lemma handler_trace (e : exn) (w : world) :
  exists tail : list event,
    trace (snd (if is_Exception e
                then (print Style.RESET_ALL ≫= fun _ => @raise unit e) w
                else (Raised e, w)))
    = trace w ++ tail
    /\ (tail = [] \/ tail = [Print Style.RESET_ALL])
    /\ fst (if is_Exception e
            then (print Style.RESET_ALL ≫= fun _ => @raise unit e) w
            else (@Raised unit e, w)) <> Done tt.
Proof.
  destruct (is_Exception e).
  - unfold mbind, io_bind, print, perform, raise.
    destruct (schedule w) as [|[e'|] rest]; cbn [fst snd trace].
    + exists [Print Style.RESET_ALL]. repeat split; [by right | discriminate].
    + exists []. rewrite app_nil_r. repeat split; [by left | discriminate].
    + exists [Print Style.RESET_ALL]. repeat split; [by right | discriminate].
  - exists []. cbn [fst snd]. rewrite app_nil_r.
    repeat split; [by left | discriminate].
Qed.

Lemma try_except_trace (m : io unit) (w : world) (evs : list event)
    (n : nat) :
  trace (snd (m w)) = trace w ++ take n evs ->
  (fst (m w) = Done tt -> n = length evs) ->
  exists tail : list event,
    trace (snd (try_except m is_Exception
                  (fun e => print Style.RESET_ALL ≫= fun _ => raise e) w))
    = trace w ++ take n evs ++ tail
    /\ (tail = [] \/ tail = [Print Style.RESET_ALL])
    /\ (fst (try_except m is_Exception
               (fun e => print Style.RESET_ALL ≫= fun _ => raise e) w)
        = Done tt ->
        n = length evs /\ tail = []).
Proof.
  intros Htrace Hdone. unfold try_except.
  destruct (m w) as [[[]|e|] w']; cbn [fst snd] in *.
  - exists []. rewrite Htrace, app_nil_r.
    split; [reflexivity|]. split; [by left|]. intros _.
    split; [by apply Hdone | reflexivity].
  - destruct (handler_trace e w') as (tail & Ht & Htail & Hnot).
    exists tail. rewrite Ht, Htrace, <- app_assoc.
    split; [reflexivity|]. split; [exact Htail|].
    intros Hd. destruct (Hnot Hd).
  - exists []. rewrite Htrace, app_nil_r.
    split; [reflexivity|]. split; [by left|]. discriminate.
Qed.

(** Whatever fails and whenever, what [show] has slept and printed is a
    beginning of what it does when nothing fails, followed at most by the
    reset sequence; and it returns only after all of it, without the
    reset sequence. *)
Theorem show_trace_prefix (fuel : nat) (self : TerminalImage)
    (animated : bool) (repeat : Z) (w : world) :
  (length (frames self) <= length (durations self))%nat ->
  exists (n : nat) (tail : list event),
    trace (snd (show fuel self animated repeat w))
    = trace w ++ take n (show_events fuel self animated repeat) ++ tail
    /\ (tail = [] \/ tail = [Print Style.RESET_ALL])
    /\ (fst (show fuel self animated repeat w) = Done tt ->
        n = length (show_events fuel self animated repeat) /\ tail = []).
Proof.
  intros Hlen. unfold show.
  destruct (decide (animated = true \/ frames self <> [])) as [Hplayed|Hnone].
  - pose proof (show_body_run fuel self animated repeat Hlen Hplayed w)
      as Hbody.
    destruct (run_spec (show_events fuel self animated repeat) w)
      as (n & Htrace & Hout).
    exists n. apply try_except_trace; rewrite Hbody.
    + destruct (repeat <=? -1); [|exact Htrace].
      unfold mbind, io_bind, out_of_fuel.
      destruct (run (show_events fuel self animated repeat) w)
        as [[[]|e|] w']; exact Htrace.
    + destruct (repeat <=? -1).
      * unfold mbind, io_bind, out_of_fuel.
        destruct (run (show_events fuel self animated repeat) w)
          as [[[]|e|] w']; discriminate.
      * intros Hd. destruct Hout as [[_ ->]|[e He]];
          [reflexivity | congruence].
  - assert (Hbody : show_body fuel self animated repeat w
                    = (Raised IndexError, w)).
    { destruct animated; [destruct Hnone; by left|].
      destruct (frames self) as [|f0 rest] eqn:Hf;
        [|destruct Hnone; by right].
      unfold show_body. rewrite Hf. reflexivity. }
    exists 0%nat. apply try_except_trace; rewrite Hbody; cbn [fst snd take].
    + by rewrite app_nil_r.
    + discriminate.
Qed.

Lemma show_trace_prefix_witness :
  exists (n : nat) (tail : list event),
    trace (snd (show 2 two_frames true (-1)
                  {| schedule := [None; None; Some (OSError "pipe")];
                     trace := [] |}))
    = [] ++ take n (show_events 2 two_frames true (-1)) ++ tail
    /\ (tail = [] \/ tail = [Print Style.RESET_ALL])
    /\ (fst (show 2 two_frames true (-1)
               {| schedule := [None; None; Some (OSError "pipe")];
                  trace := [] |}) = Done tt ->
        n = length (show_events 2 two_frames true (-1)) /\ tail = []).
Proof.
  apply (show_trace_prefix 2 two_frames true (-1)
           {| schedule := [None; None; Some (OSError "pipe")];
              trace := [] |}).
  simpl. lia.
Defined.

Lemma show_resets_on_Exception_witness :
  show 2 two_frames true (-1)
    {| schedule := [None; None; Some (OSError "pipe")]; trace := [] |}
  = (Raised (OSError "pipe"),
     {| schedule := tail [];
        trace := [Sleep (1 # 10); Print (NL +:+ NL +:+ "A")]
                 ++ [Print Style.RESET_ALL] |}).
Proof.
  apply (show_resets_on_Exception 2 two_frames true (-1)
           {| schedule := [None; None; Some (OSError "pipe")]; trace := [] |}
           {| schedule := [];
              trace := [Sleep (1 # 10); Print (NL +:+ NL +:+ "A")] |}
           (OSError "pipe")).
  - vm_compute. reflexivity.
  - reflexivity.
  - left. reflexivity.
Defined.

Lemma show_passes_BaseException_witness :
  show 2 two_frames true (-1)
    {| schedule := [None; None; Some KeyboardInterrupt]; trace := [] |}
  = (Raised KeyboardInterrupt,
     {| schedule := [];
        trace := [Sleep (1 # 10); Print (NL +:+ NL +:+ "A")] |}).
Proof.
  apply (show_passes_BaseException 2 two_frames true (-1)
           {| schedule := [None; None; Some KeyboardInterrupt];
              trace := [] |}).
  - vm_compute. reflexivity.
  - reflexivity.
Defined.

Lemma concat_replicate_nil {A : Type} (n : nat) :
  concat (replicate n (@nil A)) = [].
Proof. induction n as [|n IH]; [reflexivity | exact IH]. Qed.

(** On an image without frames: [show(animated=False)] raises
    [IndexError] after printing the reset sequence, whatever [repeat] is;
    [show(animated=True)] prints nothing, and returns for [repeat >= 0]
    but spins forever for [repeat <= -1]. *)
Theorem show_without_frames (fuel : nat) (self : TerminalImage) (r : Z) :
  frames self = [] ->
  show fuel self false r calm
  = (Raised IndexError, quiet [Print Style.RESET_ALL])
  /\ (0 <= r -> show fuel self true r calm = (Done tt, calm))
  /\ (r <= -1 -> show fuel self true r calm = (Running, calm)).
Proof.
  intros Hf. split; [|split].
  - unfold show, try_except, show_body. rewrite Hf. reflexivity.
  - intros Hr. unfold show, try_except, show_body. rewrite Hf.
    unfold mbind at 1, io_bind at 1. cbn [mret io_ret].
    destruct (Z.leb_spec r (-1)) as [?|_]; [lia|].
    change calm with (quiet []).
    rewrite for_io_play_quiet by (simpl; lia).
    change (pass_events [] (durations self)) with (@nil event).
    rewrite concat_replicate_nil. reflexivity.
  - intros Hr. unfold show, try_except, show_body. rewrite Hf.
    unfold mbind at 1, io_bind at 1. cbn [mret io_ret].
    destruct (Z.leb_spec r (-1)) as [_|?]; [|lia].
    change calm with (quiet []).
    rewrite while_True_play_quiet by (simpl; lia).
    change (pass_events [] (durations self)) with (@nil event).
    rewrite concat_replicate_nil. reflexivity.
Qed.

Lemma show_without_frames_witness :
  show 5 {| frames := []; durations := [] |} false 3 calm
  = (Raised IndexError, quiet [Print Style.RESET_ALL])
  /\ (0 <= 3 ->
      show 5 {| frames := []; durations := [] |} true 3 calm
      = (Done tt, calm))
  /\ (3 <= -1 ->
      show 5 {| frames := []; durations := [] |} true 3 calm
      = (Running, calm)).
Proof.
  apply (show_without_frames 5 {| frames := []; durations := [] |} 3).
  reflexivity.
Defined.

(** ** More on the loader and the entry point *)

Lemma run_quiet (evs : list event) :
  forall t : list event, run evs (quiet t) = (Done tt, quiet (t ++ evs)).
Proof.
  induction evs as [|ev evs IH]; intros t.
  - simpl. rewrite app_nil_r. reflexivity.
  - rewrite run_cons. cbn [schedule quiet trace].
    fold (quiet (t ++ [ev])). rewrite IH, <- app_assoc. reflexivity.
Qed.

(** [show] in a world where nothing fails, after the calls of [t]. *)
Lemma show_quiet (fuel : nat) (self : TerminalImage) (animated : bool)
    (repeat : Z) (t : list event) :
  (length (frames self) <= length (durations self))%nat ->
  animated = true \/ frames self <> [] ->
  show fuel self animated repeat (quiet t)
  = (if repeat <=? -1 then Running else Done tt,
     quiet (t ++ show_events fuel self animated repeat)).
Proof.
  intros Hlen Hplayed. unfold show, try_except.
  rewrite (show_body_run fuel self animated repeat Hlen Hplayed).
  destruct (repeat <=? -1).
  - unfold mbind, io_bind. rewrite run_quiet. reflexivity.
  - rewrite run_quiet. reflexivity.
Qed.

Section LoaderMore.
Context {Picture : Type}.
Variable convert_RGB : Picture -> Image rgb.
Variable convert_P : Image rgb -> list Z -> Image Z.
Variable resize : Image Z -> Z * Z -> Resample -> result (Image Z).
Variable terminal : Z * Z.
Variable ImageSequence_Iterator : Picture -> list Picture.
Variable info : Picture -> gmap string Z.
Variable decode : string -> result Picture.
Variable run_process :
  gmap string string -> list string -> result (Z * gmap string string).
Variable refuses : gmap string string -> string -> option refusal.
Variable abspath : string -> string.
Variable PALETTE_PATH : string.

Local Abbreviation TerminalImage_init' :=
  (TerminalImage_init convert_RGB convert_P resize terminal
     ImageSequence_Iterator info).
Local Abbreviation Image_open' := (Image_open decode).
Local Abbreviation open_directly' :=
  (open_directly convert_RGB convert_P resize terminal
     ImageSequence_Iterator info decode).
Local Abbreviation open_transcoded' :=
  (open_transcoded convert_RGB convert_P resize terminal
     ImageSequence_Iterator info decode run_process PALETTE_PATH).
Local Abbreviation from_path' :=
  (from_path convert_RGB convert_P resize terminal ImageSequence_Iterator
     info decode run_process refuses abspath PALETTE_PATH).
Local Abbreviation main' :=
  (main convert_RGB convert_P resize terminal ImageSequence_Iterator
     info decode run_process refuses abspath PALETTE_PATH).
(** The command line of the transcoder for [path]. *)
Local Abbreviation command path :=
  ["ffmpeg"; "-i"; abspath path; "-i"; PALETTE_PATH; "-lavfi"; "paletteuse";
   "-y"; "-r"; "10"; "-hide_banner"; abspath path +:+ ".temp.gif"].

Local Abbreviation os_remove' := (os_remove refuses).

Lemma os_remove_delete (fs : gmap string string) (path : string) :
  refuses fs path = None ->
  snd (os_remove' fs path) = delete path fs
  /\ (fst (os_remove' fs path) = Ok tt
      \/ fst (os_remove' fs path) = Raise FileNotFoundError).
Proof.
  intros Hfree. unfold os_remove. rewrite Hfree.
  destruct (fs !! path) eqn:H; simpl.
  - split; [reflexivity | by left].
  - split; [symmetry; by apply delete_id | by right].
Qed.

(** The fallback of [from_path]: the outcome of the second [try] and the
    file system it leaves, less the temporary file; or, when the removal
    is refused, the error of [os.remove] and the file system untouched. *)
Lemma from_path_fallback (fs : gmap string string) (path : string)
    (e : exn) :
  open_directly' fs path = Raise e ->
  is_OSError e = true ->
  from_path' fs path
  = match refuses
            (snd (open_transcoded' fs (abspath path)
                    (abspath path +:+ ".temp.gif")))
            (abspath path +:+ ".temp.gif") with
    | None =>
        (fst (open_transcoded' fs (abspath path)
                (abspath path +:+ ".temp.gif")),
         delete (abspath path +:+ ".temp.gif")
           (snd (open_transcoded' fs (abspath path)
                   (abspath path +:+ ".temp.gif"))))
    | Some r =>
        (Raise (refusal_error r),
         snd (open_transcoded' fs (abspath path)
                (abspath path +:+ ".temp.gif")))
    end.
Proof.
  intros Hopen He. unfold from_path. rewrite Hopen, He.
  destruct (open_transcoded' fs (abspath path) (abspath path +:+ ".temp.gif"))
    as [res fs1]. cbn [fst snd].
  destruct (refuses fs1 (abspath path +:+ ".temp.gif")) as [r|] eqn:Hr.
  - unfold os_remove. rewrite Hr. destruct r; reflexivity.
  - destruct (os_remove_delete fs1 (abspath path +:+ ".temp.gif") Hr)
      as [Hfs Hres].
    destruct (os_remove' fs1 (abspath path +:+ ".temp.gif")) as [res' fs2].
    cbn [fst snd] in Hfs, Hres. subst fs2.
    destruct Hres as [->| ->]; reflexivity.
Qed.

(** Unless the direct attempt raises an [OSError], [from_path] returns
    what that attempt gives (an image, or its exception) and leaves the
    file system as it is: no transcoding, no temporary file. *)
Theorem from_path_direct (fs : gmap string string) (path : string) :
  (forall e : exn, open_directly' fs path = Raise e -> is_OSError e = false) ->
  from_path' fs path = (open_directly' fs path, fs).
Proof.
  intros Hdirect. unfold from_path.
  destruct (open_directly' fs path) as [self|e]; [reflexivity|].
  rewrite (Hdirect e eq_refl). reflexivity.
Qed.

(** When the transcoder cannot even be started, [from_path] does not
    raise the error of the spawn but [UnboundLocalError], from the
    [finally] block of [video_to_gif]; unless the removal of the
    temporary path is refused, in which case it raises the error of
    [os.remove] and removes nothing. *)
Theorem from_path_spawn_failure (fs : gmap string string) (path : string)
    (e e' : exn) :
  open_directly' fs path = Raise e ->
  is_OSError e = true ->
  run_process fs (command path) = Raise e' ->
  from_path' fs path
  = match refuses fs (abspath path +:+ ".temp.gif") with
    | None =>
        (Raise UnboundLocalError, delete (abspath path +:+ ".temp.gif") fs)
    | Some r => (Raise (refusal_error r), fs)
    end.
Proof.
  intros Hopen He Hspawn. rewrite (from_path_fallback fs path e Hopen He).
  unfold open_transcoded, video_to_gif. rewrite Hspawn. reflexivity.
Qed.

(** A transcoder that exits with a code other than 0 makes [from_path]
    raise [OSError] with that code in the message, and whatever the
    transcoder left at the temporary path is removed; unless that removal
    is refused, in which case [from_path] raises the error of [os.remove]
    instead and removes nothing. *)
Theorem from_path_nonzero_exit (fs fs1 : gmap string string)
    (path : string) (e : exn) (code : Z) :
  open_directly' fs path = Raise e ->
  is_OSError e = true ->
  run_process fs (command path) = Ok (code, fs1) ->
  code <> 0 ->
  from_path' fs path
  = match refuses fs1 (abspath path +:+ ".temp.gif") with
    | None =>
        (Raise (OSError ("ffmpeg error: exit with " +:+ pretty code)),
         delete (abspath path +:+ ".temp.gif") fs1)
    | Some r => (Raise (refusal_error r), fs1)
    end.
Proof.
  intros Hopen He Hrun Hcode. rewrite (from_path_fallback fs path e Hopen He).
  unfold open_transcoded, video_to_gif. rewrite Hrun.
  rewrite decide_True by exact Hcode. reflexivity.
Qed.

(** After a transcoding that exits with 0, [from_path] returns what
    opening and constructing from the temporary file gives, and the file
    system is the one the transcoder left, less the temporary file;
    unless the removal of that file is refused, in which case [from_path]
    raises the error of [os.remove], even when the image was built, and
    removes nothing. *)
Theorem from_path_transcoded (fs fs1 : gmap string string) (path : string)
    (e : exn) :
  open_directly' fs path = Raise e ->
  is_OSError e = true ->
  run_process fs (command path) = Ok (0, fs1) ->
  from_path' fs path
  = match refuses fs1 (abspath path +:+ ".temp.gif") with
    | None =>
        (image ← Image_open' fs1 (abspath path +:+ ".temp.gif");
         TerminalImage_init' image,
         delete (abspath path +:+ ".temp.gif") fs1)
    | Some r => (Raise (refusal_error r), fs1)
    end.
Proof.
  intros Hopen He Hrun. rewrite (from_path_fallback fs path e Hopen He).
  unfold open_transcoded, video_to_gif. rewrite Hrun.
  rewrite decide_False by (intros H; apply H; reflexivity). reflexivity.
Qed.

(** An image returned by [from_path] was built by the constructor from a
    decoded image, so it has one duration per frame. *)
Theorem from_path_constructed (fs fs' : gmap string string) (path : string)
    (self : TerminalImage) :
  from_path' fs path = (Ok self, fs') ->
  (exists image : Picture, TerminalImage_init' image = Ok self)
  /\ length (durations self) = length (frames self).
Proof.
  intros Hfrom.
  assert (Hbuilt : exists image : Picture, TerminalImage_init' image = Ok self).
  { unfold from_path in Hfrom.
    destruct (open_directly' fs path) as [self0|e] eqn:Hopen.
    - injection Hfrom as -> _. unfold open_directly in Hopen.
      destruct (Image_open' fs path) as [image|e]; [|discriminate].
      exists image. exact Hopen.
    - destruct (is_OSError e); [|discriminate].
      unfold open_transcoded in Hfrom.
      destruct (video_to_gif run_process PALETTE_PATH fs _ _)
        as [[[]|e1] fs1].
      + destruct (Image_open' fs1 _) as [image|e2] eqn:Himg.
        * exists image. cbn [mbind result_bind] in Hfrom.
          destruct (os_remove' fs1 _) as [[[]|[]] fs2];
            injection Hfrom as Hinit _; try discriminate; exact Hinit.
        * cbn [mbind result_bind] in Hfrom.
          destruct (os_remove' fs1 _) as [[[]|[]] fs2]; discriminate.
      + destruct (os_remove' fs1 _) as [[[]|[]] fs2]; discriminate. }
  split; [exact Hbuilt|].
  destruct Hbuilt as [image Hinit].
  exact (TerminalImage_init_lengths _ _ _ _ _ _ image self Hinit).
Qed.

(** For a path that loads as a single frame, the entry point sleeps for
    that frame's duration, prints the frame once and exits. The statement
    is for a duration that is not negative, as [sleep] accepts no other. *)
Theorem main_still (fuel : nat) (program path : string)
    (fs fs' : gmap string string) (img : TerminalImage) (t : list event) :
  from_path' fs path = (Ok img, fs') ->
  __len__ img = 1%nat ->
  Forall (fun d => Qle 0 d) (durations img) ->
  exists (frame : string) (d : Q),
    frames img = [frame] /\ durations img = [d]
    /\ main' fuel [program; path] fs (quiet t)
       = (Raised SystemExit, fs',
          quiet (t ++ [Sleep d; Print (NL +:+ NL +:+ frame)])).
Proof.
  intros Hfrom Hlen _.
  destruct (from_path_constructed fs fs' path img Hfrom) as [_ Hdur].
  unfold __len__ in Hlen.
  destruct (frames img) as [|frame [|? ?]] eqn:Hf; try discriminate.
  destruct (durations img) as [|d [|? ?]] eqn:Hd; try discriminate.
  exists frame, d. repeat split.
  unfold main. rewrite decide_False by (simpl; lia).
  change (py_index [program; path] 1) with (Ok path). cbv beta iota.
  rewrite Hfrom. unfold __len__. rewrite Hf.
  rewrite decide_False by (simpl; lia).
  rewrite show_quiet
    by (rewrite ?Hf, ?Hd; first [simpl; lia | right; discriminate]).
  unfold show_events. rewrite Hf, Hd. reflexivity.
Qed.

(** For a path that loads as several frames, the entry point plays them
    over and over and never reaches [sys.exit]. The statement is for
    durations that are not negative, as [sleep] accepts no other. *)
Theorem main_animation (fuel : nat) (program path : string)
    (fs fs' : gmap string string) (img : TerminalImage) (t : list event) :
  from_path' fs path = (Ok img, fs') ->
  (1 < __len__ img)%nat ->
  Forall (fun d => Qle 0 d) (durations img) ->
  main' fuel [program; path] fs (quiet t)
  = (Running, fs',
     quiet (t ++ concat (replicate fuel
                           (pass_events (frames img) (durations img))))).
Proof.
  intros Hfrom Hlen _.
  destruct (from_path_constructed fs fs' path img Hfrom) as [_ Hdur].
  unfold main. rewrite decide_False by (simpl; lia).
  change (py_index [program; path] 1) with (Ok path). cbv beta iota.
  rewrite Hfrom. rewrite decide_True by exact Hlen.
  rewrite show_quiet by (first [lia | by left]). reflexivity.
Qed.
End LoaderMore.

Lemma from_path_direct_witness :
  from_path sample_convert_RGB sample_convert_P sample_resize (80, 24)
    sample_Iterator sample_info sample_decode_any sample_run_process
   
   sample_never_refuses sample_abspath
   "/opt/imagedisplay/palette.png" sample_disk "pic.png"
  = (open_directly sample_convert_RGB sample_convert_P sample_resize (80, 24)
       sample_Iterator sample_info sample_decode_any sample_disk "pic.png",
     sample_disk).
Proof.
  apply (from_path_direct sample_convert_RGB sample_convert_P sample_resize
           (80, 24) sample_Iterator sample_info sample_decode_any
           sample_run_process
           sample_never_refuses sample_abspath "/opt/imagedisplay/palette.png"
           sample_disk "pic.png").
  intros e H. vm_compute in H. discriminate.
Defined.

Lemma from_path_spawn_failure_witness :
  from_path sample_convert_RGB sample_convert_P sample_resize (80, 24)
    sample_Iterator sample_info sample_decode_any sample_no_ffmpeg
   
   sample_never_refuses sample_abspath
   "/opt/imagedisplay/palette.png" sample_disk "clip.mp4"
  = (Raise UnboundLocalError,
     delete (sample_abspath "clip.mp4" +:+ ".temp.gif") sample_disk).
Proof.
  apply (from_path_spawn_failure sample_convert_RGB sample_convert_P
           sample_resize (80, 24) sample_Iterator sample_info
           sample_decode_any sample_no_ffmpeg
           sample_never_refuses sample_abspath
           "/opt/imagedisplay/palette.png" sample_disk "clip.mp4"
           (OSError "cannot identify image file") FileNotFoundError);
    vm_compute; reflexivity.
Defined.

Lemma from_path_nonzero_exit_witness :
  sample_from_path sample_fs "broken.mp4"
  = (Raise (OSError ("ffmpeg error: exit with " +:+ pretty 1)),
     delete (sample_abspath "broken.mp4" +:+ ".temp.gif")
       (<[sample_abspath "broken.mp4" +:+ ".temp.gif" := "partial"]>
          sample_fs)).
Proof.
  apply (from_path_nonzero_exit sample_convert_RGB sample_convert_P
           sample_resize (80, 24) sample_Iterator sample_info sample_decode
           sample_run_process
           sample_never_refuses sample_abspath "/opt/imagedisplay/palette.png"
           sample_fs
           (<[sample_abspath "broken.mp4" +:+ ".temp.gif" := "partial"]>
              sample_fs)
           "broken.mp4" (OSError "cannot identify image file") 1);
    [vm_compute; reflexivity .. | discriminate].
Defined.

Lemma from_path_transcoded_witness :
  sample_from_path sample_fs "clip.mp4"
  = (image ← Image_open sample_decode
               (<[sample_abspath "clip.mp4" +:+ ".temp.gif" := "gif"]>
                  sample_fs)
               (sample_abspath "clip.mp4" +:+ ".temp.gif");
     sample_TerminalImage_init image,
     delete (sample_abspath "clip.mp4" +:+ ".temp.gif")
       (<[sample_abspath "clip.mp4" +:+ ".temp.gif" := "gif"]> sample_fs)).
Proof.
  apply (from_path_transcoded sample_convert_RGB sample_convert_P
           sample_resize (80, 24) sample_Iterator sample_info sample_decode
           sample_run_process
           sample_never_refuses sample_abspath "/opt/imagedisplay/palette.png"
           sample_fs
           (<[sample_abspath "clip.mp4" +:+ ".temp.gif" := "gif"]> sample_fs)
           "clip.mp4" (OSError "cannot identify image file"));
    vm_compute; reflexivity.
Defined.

Lemma from_path_constructed_witness :
  (exists image : sample_picture,
     sample_TerminalImage_init image = Ok sample_animation)
  /\ length (durations sample_animation) = length (frames sample_animation).
Proof.
  apply (from_path_constructed sample_convert_RGB sample_convert_P
           sample_resize (80, 24) sample_Iterator sample_info sample_decode
           sample_run_process
           sample_never_refuses sample_abspath "/opt/imagedisplay/palette.png"
           sample_fs sample_fs "clip.mp4" sample_animation).
  vm_compute. reflexivity.
Defined.

Lemma main_still_witness :
  exists (frame : string) (d : Q),
    frames sample_still = [frame] /\ durations sample_still = [d]
    /\ main sample_convert_RGB sample_convert_P sample_resize (80, 24)
         sample_Iterator sample_info sample_decode_any sample_run_process
         sample_never_refuses sample_abspath "/opt/imagedisplay/palette.png"
         0 ["imagedisplay.py"; "pic.png"] sample_disk (quiet [])
       = (Raised SystemExit, sample_disk,
          quiet ([] ++ [Sleep d; Print (NL +:+ NL +:+ frame)])).
Proof.
  apply (main_still sample_convert_RGB sample_convert_P sample_resize
           (80, 24) sample_Iterator sample_info sample_decode_any
           sample_run_process
           sample_never_refuses sample_abspath "/opt/imagedisplay/palette.png"
           0 "imagedisplay.py" "pic.png" sample_disk sample_disk
           sample_still []).
  - vm_compute. reflexivity.
  - reflexivity.
  - repeat constructor. discriminate.
Defined.

Lemma main_animation_witness :
  main sample_convert_RGB sample_convert_P sample_resize (80, 24)
    sample_Iterator sample_info sample_decode_any sample_run_process
    sample_never_refuses sample_abspath "/opt/imagedisplay/palette.png"
    3 ["imagedisplay.py"; "pic.gif"] sample_disk (quiet [])
  = (Running, sample_disk,
     quiet ([] ++ concat (replicate 3
                            (pass_events (frames sample_animation)
                               (durations sample_animation))))).
Proof.
  apply (main_animation sample_convert_RGB sample_convert_P sample_resize
           (80, 24) sample_Iterator sample_info sample_decode_any
           sample_run_process
           sample_never_refuses sample_abspath "/opt/imagedisplay/palette.png"
           3 "imagedisplay.py" "pic.gif" sample_disk sample_disk
           sample_animation []).
  - vm_compute. reflexivity.
  - unfold __len__. simpl. lia.
  - repeat constructor; discriminate.
Defined.

(** ** The palette image *)

Lemma for_each_app {A S : Type} (xs ys : list A) (body : S -> A -> result S) :
  forall s : S,
    for_each (xs ++ ys) body s
    = match for_each xs body s with
      | Ok s' => for_each ys body s'
      | Raise e => Raise e
      end.
Proof.
  induction xs as [|x xs IH]; intros s; [reflexivity|].
  cbn [app for_each]. destruct (body s x); [apply IH | reflexivity].
Qed.

(** Filling the first [n] pixels of row [y]. *)
Lemma fill_row (f : nat -> Z) (y n : nat) (img : Image Z) :
  (n <= width img)%nat -> (y < height img)%nat ->
  exists img' : Image Z,
    for_each (seq 0 n) (fun img x => putpixel img (x, y) (f x)) img = Ok img'
    /\ width img' = width img /\ height img' = height img
    /\ forall x' y' : nat,
         getpixel img' x' y'
         = if decide (y' = y /\ (x' < n)%nat) then f x'
           else getpixel img x' y'.
Proof.
  intros Hn Hy. induction n as [|n IH].
  - exists img. repeat split; intros x' y';
      rewrite decide_False by lia; reflexivity.
  - destruct (IH ltac:(lia)) as (img1 & Hloop & Hw & Hh & Hpix).
    rewrite seq_S, for_each_app, Hloop. cbn [for_each Nat.add].
    unfold putpixel. rewrite decide_True by lia.
    eexists. split; [reflexivity|]. cbn [width height getpixel].
    repeat split; try assumption.
    intros x' y'. rewrite Hpix.
    destruct (decide (x' = n /\ y' = y)) as [[-> ->]|Hne].
    + rewrite decide_True by lia. reflexivity.
    + destruct (decide (y' = y /\ (x' < n)%nat)) as [[-> Hlt]|Hout].
      * rewrite decide_True by lia. reflexivity.
      * rewrite decide_False by lia. reflexivity.
Qed.

(** Filling the first [n] rows. *)
Lemma fill_rows (n : nat) (img : Image Z) :
  (16 <= width img)%nat -> (n <= height img)%nat ->
  exists img' : Image Z,
    for_each (seq 0 n) palette_row img = Ok img'
    /\ width img' = width img /\ height img' = height img
    /\ forall x y : nat,
         getpixel img' x y
         = if decide ((y < n)%nat /\ (x < 16)%nat)
           then Z.of_nat x + Z.of_nat y * 16
           else getpixel img x y.
Proof.
  intros Hw Hn. induction n as [|n IH].
  - exists img. repeat split; intros x y;
      rewrite decide_False by lia; reflexivity.
  - destruct (IH ltac:(lia)) as (img1 & Hloop & Hw1 & Hh1 & Hpix).
    rewrite seq_S, for_each_app, Hloop. cbn [for_each Nat.add].
    destruct (fill_row (fun x => Z.of_nat x + Z.of_nat n * 16) n 16 img1
                ltac:(lia) ltac:(lia)) as (img2 & Hrow & Hw2 & Hh2 & Hpix2).
    unfold palette_row, range. rewrite Hrow.
    exists img2. split; [reflexivity|].
    repeat split; [congruence | congruence |].
    intros x y. rewrite Hpix2, Hpix.
    destruct (decide (y = n /\ (x < 16)%nat)) as [[-> Hlt]|Hne].
    + rewrite decide_True by lia. reflexivity.
    + destruct (decide ((y < n)%nat /\ (x < 16)%nat)) as [[Hlt Hx]|Hout].
      * rewrite decide_True by lia. reflexivity.
      * rewrite decide_False by lia. reflexivity.
Qed.

(** The palette image is 16 by 16 and its pixel (x, y) holds the index
    [x + 16 * y]: every palette slot appears once, row after row, so the
    image shows the 24 defined colors and then the first color again. *)
Theorem palette_image :
  exists img : Image Z,
    PALETTE = Ok img
    /\ width img = 16%nat /\ height img = 16%nat
    /\ forall x y : nat,
         (x < 16)%nat -> (y < 16)%nat ->
         getpixel img x y = Z.of_nat x + Z.of_nat y * 16
         /\ (exists c : rgb,
               palette_rgb PALETTE_DATA (Z.to_nat (getpixel img x y)) = Some c)
         /\ (24 <= Z.of_nat x + Z.of_nat y * 16 ->
             palette_rgb PALETTE_DATA (Z.to_nat (getpixel img x y))
             = palette_rgb PALETTE_DATA 0).
Proof.
  destruct (fill_rows 16 (Image_new (16%nat, 16%nat)) ltac:(simpl; lia)
              ltac:(simpl; lia)) as (img & Hloop & Hw & Hh & Hpix).
  exists img. split; [exact Hloop|]. split; [exact Hw|]. split; [exact Hh|].
  intros x y Hx Hy. rewrite Hpix, decide_True by lia.
  split; [reflexivity|].
  pose proof (palette_slot_ok_at
                (Z.to_nat (Z.of_nat x + Z.of_nat y * 16)) ltac:(lia)) as Hok.
  unfold palette_slot_ok in Hok.
  destruct (palette_rgb PALETTE_DATA _) as [c|] eqn:Hc; [|discriminate].
  split; [exists c; reflexivity|].
  intros Hge.
  destruct (Nat.ltb_spec (Z.to_nat (Z.of_nat x + Z.of_nat y * 16)) 24)
    as [Hlt|_]; [lia|].
  apply bool_decide_eq_true in Hok. congruence.
Qed.

Lemma palette_image_witness :
  exists img : Image Z,
    PALETTE = Ok img /\ getpixel img 3 2 = 35
    /\ palette_rgb PALETTE_DATA (Z.to_nat (getpixel img 3 2))
       = palette_rgb PALETTE_DATA 0.
Proof.
  destruct palette_image as (img & Hpal & _ & _ & Hpix).
  exists img. split; [exact Hpal|].
  destruct (Hpix 3%nat 2%nat ltac:(lia) ltac:(lia)) as (Hval & _ & Hpad).
  split; [exact Hval|]. apply Hpad. lia.
Defined.
